(** * The Indie Beat playlist generator: health probing and playlist encoders

    A shallow embedding of [get-playlists.py]: the stream health check
    ([StreamHealthCheck.check_stream], [StreamHealthCheck.check_streams]),
    the three encoders ([create_xspf_playlist], [create_m3u_playlist],
    [create_pls_playlist]), the directory fetch, the file writing and
    [main] with what it puts on the console, followed by the properties the
    specification states about them and further properties of the code.

    Python [str] values are byte strings holding their UTF-8 encoding;
    concatenation and equality agree with Python's on such strings. A
    station or mount is the JSON object the directory service returns, with
    the keys the code reads. *)

From Stdlib Require Import Ascii.
From stdpp Require Import base option list strings pretty gmap.

Set Warnings "-register-all".

(** ** Station directory data *)

(** The line feed the encoders write as ["\n"]. *)
Definition nl : string := String "010"%char EmptyString.

(** The double quote. *)
Definition dquote : string := String "034"%char EmptyString.

(** A key of a JSON object that the code reads defensively ([dict.get], or an
    [in] test before indexing): the key may be missing, hold [null], or hold
    a value. *)
Inductive field (A : Type) : Type :=
  | Absent
  | Null
  | Value (a : A).
Arguments Absent {A}.
Arguments Null {A}.
Arguments Value {A} a.

(** A mount dict. [mount['url']] and [mount['format']] are indexed
    directly by every function that touches a mount, so they are plain
    fields; [bitrate] is only read behind ['bitrate' in mount]. *)
Record mount : Type := Mount {
  m_url : string;
  m_format : string;
  m_bitrate : field Z
}.

(** A station dict. [station['name']] and [station['mounts']] are indexed
    directly; the other keys are read with [get] or behind an [in] test. *)
Record station : Type := Station {
  s_name : string;
  s_description : field string;
  s_url : field string;
  s_genre : field string;
  s_art : field string;
  s_mounts : list mount
}.

(** ** Health results *)

(** Third component of a probe result: [response.status] on success, a
    message ([str(e)], or one of the fixed notes) otherwise. *)
Inductive info : Type :=
  | Status (code : Z)
  | Text (message : string).

(** [health_results]: a dict from stream URL to [(ok, info)]. *)
Abbreviation health_map := (gmap string (bool * info)).

(** [health_results.get(mount['url'], (False, "Not checked"))[0]] *)
Definition health_status (health_results : health_map) (url : string) : bool :=
  (default (false, Text "Not checked") (health_results !! url)).1.

(** ** Python values and exceptions *)

(** ['key' in d] *)
Definition has_key {A} (f : field A) : bool :=
  match f with Absent => false | Null | Value _ => true end.

(** [d.get('key', default)] for a text key: a [str], or [None] when the key
    holds [null]. *)
Definition dict_get (f : field string) (default : string) : option string :=
  match f with
  | Absent => Some default
  | Null => None
  | Value s => Some s
  end.

(** ['key' in d and d['key']]: the key is there and its value is truthy
    ([None] and the empty string are falsy). *)
Definition present_and_truthy (f : field string) : bool :=
  match f with
  | Value s => negb (bool_decide (s = ""))
  | Null | Absent => false
  end.

(** [d['key']] once [present_and_truthy] holds. *)
Definition text_of (f : field string) : string :=
  match f with Value s => s | Null | Absent => "" end.

(** [f"{n}"] for an [int]. *)
Definition str_int (z : Z) : string := pretty z.

(** [f"{mount['bitrate']}"] once the key is known to be there: the decimal
    digits of an [int], and ["None"] for [None]. *)
Definition str_bitrate (b : field Z) : string :=
  match b with
  | Value z => str_int z
  | Null | Absent => "None"
  end.

(** An exception object: its class name and what [str(e)] gives. Only
    exceptions derived from [Exception] are modelled, the ones an
    [except Exception] clause is written for. *)
Record exn : Type := Exn {
  exn_class : string;
  exn_str : string
}.

(** A computation that returns or raises. *)
Inductive outcome (A : Type) : Type :=
  | Return (a : A)
  | Raise (e : exn).
Arguments Return {A} a.
Arguments Raise {A} e.

Global Instance outcome_ret : MRet outcome := λ A a, Return a.
Global Instance outcome_bind : MBind outcome := λ A B f m,
  match m with
  | Return a => f a
  | Raise e => Raise e
  end.

(** [try: body  except Exception as e: handler(e)] *)
Definition try_except {A} (body : outcome A) (handler : exn → outcome A) : outcome A :=
  match body with
  | Return a => Return a
  | Raise e => handler e
  end.

(** ** Stream health check *)

(** What the HTTP client does for one request, as seen by [check_stream]:
    [session.get] raises (connection refused or reset, DNS failure, invalid
    URL, timeout) or yields a response with a status code; then
    [response.content.read(1024)] completes or raises. [x_elapsed] is the
    time from the request until [check_stream] gets control back. *)
Record exchange : Type := Exchange {
  x_get : exn + Z;
  x_read : option exn;
  x_elapsed : nat
}.

(** The network: the exchange a request meets, given the timeout passed to
    [session.get], the time at which the request is made, and the URL. *)
Definition network : Type := nat → nat → string → exchange.

(** A coroutine awaited by the single task of the event loop: it starts at a
    clock reading and hands back its outcome with the clock reading at which
    it finished. The clock is ghost state; the code never reads it. *)
Definition coroutine (A : Type) : Type := nat → outcome A * nat.

(** The checker object: [self.timeout], in seconds. ([self.results] is set
    to an empty dict by the constructor and never touched again.) *)
Record StreamHealthCheck : Type := {
  timeout : nat
}.

(** [StreamHealthCheck()]: [timeout=5]. *)
Definition StreamHealthCheck_default : StreamHealthCheck := {| timeout := 5 |}.

Definition session_get (x : exchange) : outcome Z :=
  match x_get x with
  | inl e => Raise e
  | inr status => Return status
  end.

Definition content_read (x : exchange) : outcome unit :=
  match x_read x with
  | Some e => Raise e
  | None => Return tt
  end.

(** [StreamHealthCheck.check_stream] *)
Definition check_stream (self : StreamHealthCheck) (net : network) (url : string)
    : coroutine (string * bool * info) := λ clock,
  let x := net (timeout self) clock url in
  (try_except
     (status ← session_get x;
      _ ← content_read x;
      Return (url, true, Status status))
     (λ e, Return (url, false, Text (exn_str e))),
   clock + x_elapsed x).

(** One turn of the loop of [check_streams]: the probe is awaited, then its
    result is stored under the URL it carries. *)
Definition check_streams_step (self : StreamHealthCheck) (net : network)
    (acc : health_map * nat) (url : string) : health_map * nat :=
  let '(results, clock) := acc in
  match check_stream self net url clock with
  | (Return (key, ok, inf), clock') => (<[key := (ok, inf)]> results, clock')
  | (Raise e, clock') => (<[url := (false, Text (exn_str e))]> results, clock')
  end.

(** [StreamHealthCheck.check_streams], started at [clock]: the results and
    the clock reading at the return. The progress display has no part in
    either; what it puts on the console is in [show_health_check]. *)
Definition check_streams (self : StreamHealthCheck) (net : network)
    (urls : list string) (clock : nat) : health_map * nat :=
  foldl (check_streams_step self net) (∅, clock) urls.

(** ** Health map of [main] *)

(** [stream_urls] of [main]: the URL of every mp3 mount, in station order and
    then mount order. *)
Definition stream_urls (station_data : list station) : list string :=
  station ← station_data;
  mount ← s_mounts station;
  if decide (m_format mount = "mp3") then [m_url mount] else [].

(** [{url: (True, "Health check skipped") for url in stream_urls}] *)
Definition skipped_results (stream_urls : list string) : health_map :=
  foldl (λ d url, <[url := (true, Text "Health check skipped")]> d) ∅ stream_urls.

(** The health map [main] hands to the encoders, by [--no-health-check]. *)
Definition main_health_results (no_health_check : bool) (net : network)
    (station_data : list station) (clock : nat) : health_map :=
  if negb no_health_check then
    let health_checker := StreamHealthCheck_default in
    (check_streams health_checker net (stream_urls station_data) clock).1
  else skipped_results (stream_urls station_data).

(** ** XML: [xml.etree.ElementTree] and [xml.dom.minidom] *)

(** An [ElementTree] element: tag, attributes in insertion order, [text]
    ([None] or a [str]), sub-elements. The code never sets a [tail]. *)
Inductive Element : Type :=
  | Elem (tag : string) (attrib : list (string * string))
         (text : option string) (children : list Element).

(** A [minidom] node of the re-parsed document. *)
Inductive Node : Type :=
  | TextNode (data : string)
  | ElementNode (tagName : string) (attributes : list (string * string))
                (childNodes : list Node).

(** The exception of the parser for a character it refuses. Its message
    goes on with the line and the column of the character, which are left
    out. *)
Definition ExpatError : exn :=
  {| exn_class := "ExpatError"; exn_str := "not well-formed (invalid token)" |}.

(** Bytes the XML parser refuses inside character data: the C0 controls
    other than tab, line feed and carriage return. *)
Definition xml_byte_ok (c : ascii) : bool :=
  let n := nat_of_ascii c in
  bool_decide (32 ≤ n) || bool_decide (n = 9) || bool_decide (n = 10) || bool_decide (n = 13).

(** Character data the parser accepts: no refused byte, and neither U+FFFE
    nor U+FFFF (bytes EF BF BE and EF BF BF). *)
Fixpoint xml_chars_ok (s : string) : bool :=
  match s with
  | EmptyString => true
  | String c s' =>
      xml_byte_ok c &&
      match c, s' with
      | "239"%char, String "191"%char (String d _) =>
          negb (bool_decide (d = "190"%char) || bool_decide (d = "191"%char))
      | _, _ => true
      end &&
      xml_chars_ok s'
  end.

(** End-of-line handling of the parser on character data: CR LF and a lone
    CR both become LF. *)
Fixpoint normalize_eol (s : string) : string :=
  match s with
  | EmptyString => EmptyString
  | String "013"%char s' =>
      match s' with
      | String "010"%char _ => normalize_eol s'
      | _ => String "010"%char (normalize_eol s')
      end
  | String c s' => String c (normalize_eol s')
  end.

(** The text of an element as it comes back from the parser: no node for
    [None] or the empty string. *)
Definition reparse_text (text : option string) : outcome (list Node) :=
  match text with
  | None => Return []
  | Some s =>
      if bool_decide (s = "") then Return []
      else if xml_chars_ok s then Return [TextNode (normalize_eol s)]
      else Raise ExpatError
  end.

(** A namespace declaration: [xmlns] or [xmlns:prefix]. *)
Definition is_xmlns (a : string * string) : bool :=
  bool_decide (a.1 = "xmlns") || String.prefix "xmlns:" a.1.

(** Attributes as they come back: the namespace declaration first, the
    others in their order; values are kept (they are written as character
    references where the parser would change them). *)
Definition reparse_attrib (attrib : list (string * string))
    : outcome (list (string * string)) :=
  if forallb (λ a, xml_chars_ok a.2) attrib
  then Return (filter (λ a, is_xmlns a = true) attrib ++ filter (λ a, is_xmlns a = false) attrib)
  else Raise ExpatError.

(** [minidom.parseString(tostring(e, 'utf-8'))]: the DOM element that comes
    back for [e], or the parser's exception. *)
Fixpoint reparse (e : Element) : outcome Node :=
  match e with
  | Elem tag attrib text children =>
      attributes ← reparse_attrib attrib;
      text_nodes ← reparse_text text;
      child_nodes ←
        (fix go (es : list Element) : outcome (list Node) :=
           match es with
           | [] => Return []
           | e' :: es' => n ← reparse e'; ns ← go es'; Return (n :: ns)
           end) children;
      Return (ElementNode tag attributes (text_nodes ++ child_nodes))
  end.

Definition escape_char (c : ascii) : string :=
  if bool_decide (c = "&"%char) then "&amp;"
  else if bool_decide (c = "<"%char) then "&lt;"
  else if bool_decide (c = "034"%char) then "&quot;"
  else if bool_decide (c = ">"%char) then "&gt;"
  else String c EmptyString.

(** [minidom._write_data]: the four replacements, ["&"] first, amount to one
    pass over the characters. *)
Fixpoint write_data (data : string) : string :=
  match data with
  | EmptyString => EmptyString
  | String c s => escape_char c +:+ write_data s
  end.

Definition write_attributes (attrs : list (string * string)) : string :=
  foldr (λ a out, " " +:+ a.1 +:+ "=" +:+ dquote +:+ write_data a.2 +:+ dquote +:+ out)
        "" attrs.

Definition concat_strings (l : list string) : string := foldr String.append "" l.

(** [Node.writexml(writer, indent, addindent, newl)] for text and element
    nodes, as the text written. *)
Fixpoint writexml (indent addindent newl : string) (n : Node) : string :=
  match n with
  | TextNode data => write_data (indent +:+ data +:+ newl)
  | ElementNode tagName attrs childNodes =>
      indent +:+ "<" +:+ tagName +:+ write_attributes attrs +:+
      match childNodes with
      | [] => "/>" +:+ newl
      | [TextNode data] =>
          ">" +:+ write_data data +:+ "</" +:+ tagName +:+ ">" +:+ newl
      | _ =>
          ">" +:+ newl +:+
          concat_strings (map (writexml (indent +:+ addindent) addindent newl) childNodes) +:+
          indent +:+ "</" +:+ tagName +:+ ">" +:+ newl
      end
  end.

(** [Document.toprettyxml(indent)] of the document whose root is [root]. *)
Definition toprettyxml (indent : string) (root : Node) : string :=
  "<?xml version=" +:+ dquote +:+ "1.0" +:+ dquote +:+ " ?>" +:+ nl +:+
  writexml "" indent nl root.

(** ** XSPF encoder *)

(** The [track] element built for one healthy mp3 mount. *)
Definition xspf_track (st : station) (mt : mount) : Element :=
  let location := Elem "location" [] (Some (m_url mt)) [] in
  let title := Elem "title" [] (Some (s_name st)) [] in
  let creator := Elem "creator" [] (Some "The Indie Beat Radio") [] in
  let annotation := Elem "annotation" [] (dict_get (s_description st) "") [] in
  let info := Elem "info" [] (dict_get (s_url st) "") [] in
  let meta :=
    if present_and_truthy (s_genre st)
    then [Elem "meta" [("rel", "genre")] (Some (text_of (s_genre st))) []]
    else [] in
  let image :=
    if present_and_truthy (s_art st)
    then [Elem "image" [] (Some (text_of (s_art st))) []]
    else [] in
  Elem "track" [] None ([location; title; creator; annotation; info] ++ meta ++ image).

(** Body of the inner loop of [create_xspf_playlist] for one mount, on the
    sub-elements of [trackList]. *)
Definition xspf_mount (health_results : health_map) (st : station)
    (tracks : list Element) (mt : mount) : list Element :=
  if decide (m_format mt = "mp3") then
    let health_status := health_status health_results (m_url mt) in
    if negb health_status then tracks
    else tracks ++ [xspf_track st mt]
  else tracks.

(** The element tree of [create_xspf_playlist]; [now] is what
    [datetime.now(UTC).isoformat()] returns when the encoder is called. *)
Definition xspf_playlist (now : string) (station_data : list station)
    (health_results : health_map) : Element :=
  let title := Elem "title" [] (Some "The Indie Beat Radio Streams") [] in
  let date := Elem "date" [] (Some now) [] in
  let tracks :=
    foldl (λ tracks st, foldl (xspf_mount health_results st) tracks (s_mounts st))
          [] station_data in
  let tracklist := Elem "trackList" [] None tracks in
  Elem "playlist" [("version", "1"); ("xmlns", "http://xspf.org/ns/0/")] None
       [title; date; tracklist].

Definition create_xspf_playlist (now : string) (station_data : list station)
    (health_results : health_map) : outcome string :=
  reparsed ← reparse (xspf_playlist now station_data health_results);
  Return (toprettyxml "  " reparsed).

(** ** M3U encoder *)

(** Body of the inner loop of [create_m3u_playlist] for one mount. *)
Definition m3u_mount (health_results : health_map) (st : station)
    (m3u_content : string) (mt : mount) : string :=
  if decide (m_format mt = "mp3") then
    let health_status := health_status health_results (m_url mt) in
    if negb health_status then m3u_content
    else
      let bitrate_info :=
        if has_key (m_bitrate mt)
        then " - " +:+ str_bitrate (m_bitrate mt) +:+ "kbps"
        else "" in
      let m3u_content :=
        m3u_content +:+ ("#EXTINF:-1," +:+ s_name st +:+ bitrate_info +:+ nl) in
      m3u_content +:+ (m_url mt +:+ nl)
  else m3u_content.

Definition create_m3u_playlist (station_data : list station)
    (health_results : health_map) : string :=
  foldl (λ m3u_content st,
           foldl (m3u_mount health_results st) m3u_content (s_mounts st))
        ("#EXTM3U" +:+ nl) station_data.

(** ** PLS encoder *)

(** Body of the inner loop of [create_pls_playlist] for one mount, on the
    pair of [pls_content] and [valid_entries]. *)
Definition pls_mount (health_results : health_map) (st : station)
    (acc : string * nat) (mt : mount) : string * nat :=
  let '(pls_content, valid_entries) := acc in
  if decide (m_format mt = "mp3") then
    let health_status := health_status health_results (m_url mt) in
    if negb health_status then acc
    else
      let valid_entries := S valid_entries in
      let pls_content :=
        pls_content +:+ ("File" +:+ pretty valid_entries +:+ "=" +:+ m_url mt +:+ nl) in
      let pls_content :=
        pls_content +:+ ("Title" +:+ pretty valid_entries +:+ "=" +:+ s_name st +:+ nl) in
      let pls_content :=
        pls_content +:+ ("Length" +:+ pretty valid_entries +:+ "=-1" +:+ nl) in
      (pls_content, valid_entries)
  else acc.

Definition create_pls_playlist (station_data : list station)
    (health_results : health_map) : string :=
  let '(pls_content, valid_entries) :=
    foldl (λ acc st, foldl (pls_mount health_results st) acc (s_mounts st))
          ("[playlist]" +:+ nl, 0) station_data in
  let pls_content :=
    pls_content +:+ ("NumberOfEntries=" +:+ pretty valid_entries +:+ nl) in
  pls_content +:+ ("Version=2" +:+ nl).

(** ** What the specification calls candidates and documents *)

(** StreamCandidate: an mp3 mount with the station that owns it, in station
    order and then mount order. *)
Definition candidates (station_data : list station) : list (station * mount) :=
  st ← station_data;
  mt ← s_mounts st;
  if decide (m_format mt = "mp3") then [(st, mt)] else [].

(** The candidates the health map reports healthy, in candidate order. *)
Definition emitted (station_data : list station) (health_results : health_map)
    : list (station * mount) :=
  filter (λ c, health_status health_results (m_url c.2) = true) (candidates station_data).

(** A document given by its lines, each ended by a line feed. *)
Definition unlines (ls : list string) : string :=
  concat_strings (map (λ l, l +:+ nl) ls).

(** The optional bitrate suffix of an [#EXTINF] line. *)
Definition bitrate_suffix (b : field Z) : string :=
  match b with
  | Absent => ""
  | Null => " - Nonekbps"
  | Value z => " - " +:+ pretty z +:+ "kbps"
  end.

Definition extinf_line (c : station * mount) : string :=
  "#EXTINF:-1," +:+ s_name c.1 +:+ bitrate_suffix (m_bitrate c.2).

(** The M3U document for a list of entries. *)
Definition m3u_lines (entries : list (station * mount)) : list string :=
  "#EXTM3U" :: (c ← entries; [extinf_line c; m_url c.2]).

(** The three PLS lines of the entry numbered [n]. *)
Definition pls_entry (n : nat) (c : station * mount) : list string :=
  [ "File" +:+ pretty n +:+ "=" +:+ m_url c.2;
    "Title" +:+ pretty n +:+ "=" +:+ s_name c.1;
    "Length" +:+ pretty n +:+ "=-1" ].

(** The PLS document for a list of entries, numbered from 1. *)
Definition pls_lines (entries : list (station * mount)) : list string :=
  "[playlist]" :: concat (imap (λ i c, pls_entry (S i) c) entries) ++
  [ "NumberOfEntries=" +:+ pretty (length entries); "Version=2" ].

(** The XSPF element tree for a list of entries. *)
Definition xspf_tree (now : string) (entries : list (station * mount)) : Element :=
  Elem "playlist" [("version", "1"); ("xmlns", "http://xspf.org/ns/0/")] None
    [ Elem "title" [] (Some "The Indie Beat Radio Streams") [];
      Elem "date" [] (Some now) [];
      Elem "trackList" [] None ((λ c, xspf_track c.1 c.2) <$> entries) ].

(** What one turn of each encoder's inner loop does to its state when the
    mount is an mp3 mount reported healthy. *)
Definition m3u_emit (m3u_content : string) (c : station * mount) : string :=
  (m3u_content +:+ ("#EXTINF:-1," +:+ s_name c.1 +:+
     (if has_key (m_bitrate c.2)
      then " - " +:+ str_bitrate (m_bitrate c.2) +:+ "kbps" else "") +:+ nl))
  +:+ (m_url c.2 +:+ nl).

Definition pls_emit (acc : string * nat) (c : station * mount) : string * nat :=
  let '(pls_content, valid_entries) := acc in
  (((pls_content
     +:+ ("File" +:+ pretty (S valid_entries) +:+ "=" +:+ m_url c.2 +:+ nl))
     +:+ ("Title" +:+ pretty (S valid_entries) +:+ "=" +:+ s_name c.1 +:+ nl))
     +:+ ("Length" +:+ pretty (S valid_entries) +:+ "=-1" +:+ nl),
   S valid_entries).

Definition xspf_emit (tracks : list Element) (c : station * mount) : list Element :=
  tracks ++ [xspf_track c.1 c.2].

(** ** Notions the properties are stated with *)

(** The result [check_stream] stores for an exchange: [(True, status)] when
    the response arrives and the read completes, [(False, str(e))] for the
    exception caught otherwise. *)
Definition probe_result (x : exchange) : bool * info :=
  match x_get x, x_read x with
  | inl e, _ => (false, Text (exn_str e))
  | inr status, Some e => (false, Text (exn_str e))
  | inr status, None => (true, Status status)
  end.

(** The time each probe of a run of [check_streams] takes, in list order:
    a probe starts when the one before it has finished. *)
Fixpoint probe_durations (self : StreamHealthCheck) (net : network)
    (urls : list string) (clock : nat) : list nat :=
  match urls with
  | [] => []
  | url :: urls' =>
      let d := x_elapsed (net (timeout self) clock url) in
      d :: probe_durations self net urls' (clock + d)
  end.

(** What surrounds a call of an encoder: the wall clock, as the text
    [datetime.now(UTC).isoformat()] gives, the network and the files. *)
Record ambient : Type := Ambient {
  amb_now : string;
  amb_network : network;
  amb_files : gmap string string
}.

Inductive playlist_format : Type := XSPF | M3U | PLS.

(** The call of an encoder made by [main] for a format, in given
    surroundings. *)
Definition run_encoder (fmt : playlist_format) (w : ambient)
    (station_data : list station) (health_results : health_map) : outcome string :=
  match fmt with
  | XSPF => create_xspf_playlist (amb_now w) station_data health_results
  | M3U => Return (create_m3u_playlist station_data health_results)
  | PLS => Return (create_pls_playlist station_data health_results)
  end.

(** A printable ASCII character other than the four that [write_data]
    replaces. *)
Definition plain_char (c : ascii) : bool :=
  let n := nat_of_ascii c in
  bool_decide (32 ≤ n) && bool_decide (n < 127) &&
  negb (bool_decide (c = "&"%char) || bool_decide (c = "<"%char)
        || bool_decide (c = "034"%char) || bool_decide (c = ">"%char)).

Fixpoint plain_chars (s : string) : bool :=
  match s with
  | EmptyString => true
  | String c s' => plain_char c && plain_chars s'
  end.

(** A clock text in the manner of [isoformat()], which gives digits and the
    characters [-], [:], [.], [+] and [T]: not empty, and of such characters
    only. *)
Definition clock_text (s : string) : bool :=
  negb (bool_decide (s = "")) && plain_chars s.

(** The XSPF document up to the text of its [date] element, and from the end
    of that text on, given the nodes of the tracks. *)
Definition xspf_before_date : string :=
  "<?xml version=" +:+ dquote +:+ "1.0" +:+ dquote +:+ " ?>" +:+ nl +:+
  "<playlist xmlns=" +:+ dquote +:+ "http://xspf.org/ns/0/" +:+ dquote +:+
  " version=" +:+ dquote +:+ "1" +:+ dquote +:+ ">" +:+ nl +:+
  "  <title>The Indie Beat Radio Streams</title>" +:+ nl +:+
  "  <date>".

Definition xspf_after_date (tracks : list Node) : string :=
  "</date>" +:+ nl +:+
  writexml "  " "  " nl (ElementNode "trackList" [] tracks) +:+
  "</playlist>" +:+ nl.

(** A text key with the empty string put where it is missing or [null]. *)
Definition fill (f : field string) : field string :=
  match f with
  | Absent | Null => Value ""
  | Value s => Value s
  end.

Definition fill_station (st : station) : station :=
  {| s_name := s_name st;
     s_description := fill (s_description st);
     s_url := fill (s_url st);
     s_genre := fill (s_genre st);
     s_art := fill (s_art st);
     s_mounts := s_mounts st |}.

Definition fill_candidate (c : station * mount) : station * mount :=
  (fill_station c.1, c.2).

Definition tag_of (e : Element) : string :=
  match e with Elem tag _ _ _ => tag end.

Definition children_of (e : Element) : list Element :=
  match e with Elem _ _ _ children => children end.

(** The sub-elements of an element under [reparse]. *)
Definition reparse_children : list Element → outcome (list Node) :=
  fix go (es : list Element) : outcome (list Node) :=
    match es with
    | [] => Return []
    | e' :: es' => n ← reparse e'; ns ← go es'; Return (n :: ns)
    end.

(** The XSPF document of a playlist without tracks, dated [now]. *)
Definition xspf_empty_document (now : string) : string :=
  unlines
    [ "<?xml version=" +:+ dquote +:+ "1.0" +:+ dquote +:+ " ?>";
      "<playlist xmlns=" +:+ dquote +:+ "http://xspf.org/ns/0/" +:+ dquote +:+
        " version=" +:+ dquote +:+ "1" +:+ dquote +:+ ">";
      "  <title>The Indie Beat Radio Streams</title>";
      "  <date>" +:+ now +:+ "</date>";
      "  <trackList/>";
      "</playlist>" ].

(** Text the XML parser accepts where an element has text at all. *)
Definition text_ok (text : option string) : bool :=
  match text with
  | None => true
  | Some s => xml_chars_ok s
  end.

Definition field_ok (f : field string) : bool :=
  match f with
  | Value s => xml_chars_ok s
  | Null | Absent => true
  end.

(** The texts a candidate contributes to the XSPF document are accepted by
    the XML parser. *)
Definition candidate_ok (c : station * mount) : bool :=
  xml_chars_ok (m_url c.2) && xml_chars_ok (s_name c.1) &&
  field_ok (s_description c.1) && field_ok (s_url c.1) &&
  field_ok (s_genre c.1) && field_ok (s_art c.1).

(** A string without line feed. *)
Fixpoint no_lf (s : string) : bool :=
  match s with
  | EmptyString => true
  | String c s' => negb (Ascii.eqb c "010"%char) && no_lf s'
  end.

(** The lines of a text: the pieces ended by a line feed, and what follows
    the last line feed when that is not empty. *)
Fixpoint lines (s : string) : list string :=
  match s with
  | EmptyString => []
  | String c s' =>
      if Ascii.eqb c "010"%char then EmptyString :: lines s'
      else match lines s' with
           | [] => [String c EmptyString]
           | l :: ls => String c l :: ls
           end
  end.

(** No station name and no mount URL of the station holds a line feed. *)
Definition station_one_line (st : station) : Prop :=
  no_lf (s_name st) = true ∧ Forall (λ mt, no_lf (m_url mt) = true) (s_mounts st).

(** ** Sample data *)

(** The scenario of the specification: Alpha with a 128 kbps mount that is
    healthy, Beta with a mount of unknown bitrate whose probe timed out. *)
Definition scenario_stations : list station :=
  [ Station "Alpha" Absent Absent Absent Absent [Mount "http://a/1" "mp3" (Value 128%Z)];
    Station "Beta" Absent Absent Absent Absent [Mount "http://a/2" "mp3" Null] ].

Definition scenario_health : health_map :=
  <["http://a/2" := (false, Text "timeout")]> (<["http://a/1" := (true, Status 200)]> ∅).

(** A healthy mount whose [bitrate] key holds [null]. *)
Definition null_bitrate_stations : list station :=
  [ Station "Alpha" Absent Absent Absent Absent [Mount "http://a/1" "mp3" Null] ].

Definition all_healthy : health_map := <["http://a/1" := (true, Status 200)]> ∅.

(** A station without genre and art, with one healthy mount. *)
Definition plain_station : station :=
  Station "Alpha" Absent Absent Absent Absent [Mount "http://a/1" "mp3" Absent].

(** A station whose name holds a control character that XML refuses, and
    whose only mount is not in the health map above. *)
Definition bell_station : station :=
  Station (String "007"%char "Bell") Absent Absent Absent Absent
          [Mount "http://b/1" "mp3" Absent].

(** A map that holds a healthy entry for the mount of [bell_station] and no
    entry for the mount of [plain_station]. *)
Definition bell_healthy : health_map := <["http://b/1" := (true, Status 200)]> ∅.

(** A station whose name holds a line feed, with one mount. *)
Definition two_line_station : station :=
  Station ("two" +:+ nl +:+ "lines") Absent Absent Absent Absent
          [Mount "http://a/1" "mp3" Absent].

(** A map that reports both streams of the scenario healthy. *)
Definition scenario_all_healthy : health_map :=
  <["http://a/2" := (true, Status 200)]> (<["http://a/1" := (true, Status 200)]> ∅).

(** A network on which every stream answers [200] and delivers its first
    chunk, one second after the request. *)
Definition steady_network : network :=
  λ _ _ _, {| x_get := inr 200%Z; x_read := None; x_elapsed := 1 |}.

(** A network on which every request runs into the client's timeout: the
    client raises [TimeoutError()], whose [str] is empty. *)
Definition timeout_network : network :=
  λ timeout _ _,
    {| x_get := inl {| exn_class := "TimeoutError"; exn_str := "" |};
       x_read := None; x_elapsed := timeout |}.

(** A network on which every stream answers [404 Not Found] with a body that
    can be read. *)
Definition not_found_network : network :=
  λ _ _ _, {| x_get := inr 404%Z; x_read := None; x_elapsed := 1 |}.

(** Two surroundings that differ in the clock reading only, and a third that
    shares the clock reading of the first and differs in all the rest. *)
Definition midnight : ambient :=
  Ambient "2024-01-01T00:00:00+00:00" steady_network ∅.
Definition one_second_later : ambient :=
  Ambient "2024-01-01T00:00:01+00:00" steady_network ∅.
Definition midnight_elsewhere : ambient :=
  Ambient "2024-01-01T00:00:00+00:00" timeout_network
          (<["the_indie_beat_radio.m3u" := "#EXTM3U"]> ∅).

(** ** Directory fetch, file writing and [main] *)

(** The answer of the directory service to [requests.get]: its status code
    and reason phrase, and what [response.json()] gives (the station list,
    or the exception of the JSON decoder). *)
Record api_response : Type := ApiResponse {
  status_code : Z;
  reason : string;
  json : outcome (list station)
}.

(** What [requests.get] meets: an exception of the HTTP library (no
    connection, DNS failure, ...) or a response. *)
Definition directory : Type := (exn + api_response)%type.

Definition stations_url : string := "https://azura.theindiebeat.fm/api/stations".

(** [Response.raise_for_status]: an [HTTPError] for a status from 400 to
    599, nothing otherwise. *)
Definition raise_for_status (response : api_response) : outcome unit :=
  let status := status_code response in
  if bool_decide (400 ≤ status < 500)%Z then
    Raise {| exn_class := "HTTPError";
             exn_str := pretty status +:+ " Client Error: " +:+ reason response +:+
                        " for url: " +:+ stations_url |}
  else if bool_decide (500 ≤ status < 600)%Z then
    Raise {| exn_class := "HTTPError";
             exn_str := pretty status +:+ " Server Error: " +:+ reason response +:+
                        " for url: " +:+ stations_url |}
  else Return tt.

(** [fetch_station_data]. The two console messages of the verbose mode are
    texts fixed by the source (the URL is a constant, the status code an
    integer); see [Console] below. *)
Definition fetch_station_data (api : directory) : outcome (list station) :=
  response ← match api with inl e => Raise e | inr r => Return r end;
  _ ← raise_for_status response;
  json response.

(** *** The console *)

(** What the program hands to the console with a part that the source does
    not fix: a [str], which [console.print] reads as console markup; the
    [Table] of the health check, whose cells are read as markup; the
    descriptions that the task of the [Progress] display takes, read as
    markup; and the [str] that [traceback.format_exc()] gives while an
    exception is handled. *)
Inductive renderable : Type :=
  | Str (markup : string)
  | Table (title : string) (columns : list string) (rows : list (list string))
  | Progress (descriptions : list string)
  | Traceback (e : exn).

(** The console: for a renderable, [None] when it is shown and the exception
    raised otherwise. rich raises [MarkupError] when a text read as markup
    holds a closing tag that closes nothing, as [[/b]] in a URL or
    [[/green]] in a file name.

    The texts of the source without such a part (["[bold]Creating
    playlists...[/]"] and the like, with at most an integer put in) open one
    style and close it with [[/]]; they are shown whatever the run is, and
    printing them is left out. *)
Definition Console : Type := renderable → option exn.

(** [console.print(r)] *)
Definition console_print (console : Console) (r : renderable) : outcome unit :=
  match console r with
  | Some e => Raise e
  | None => Return tt
  end.

(** [for x in l: f(x)] *)
Definition for_each {A} (f : A → outcome unit) (l : list A) : outcome unit :=
  foldr (λ x rest, _ ← f x; rest) (Return tt) l.

(** *** Files *)

(** The files of the working directory, by name, and the names that
    [open(filename, 'w')] refuses, with the exception it raises. *)
Record filesystem : Type := Filesystem {
  files : gmap string string;
  open_error : string → option exn
}.

(** [save_playlist]: the file is created or overwritten with [content];
    then, in verbose mode, the message with the file name is printed. What
    the call returns or raises, and the files after it. *)
Definition save_playlist (console : Console) (content filename : string)
    (verbose : bool) (fs : filesystem) : outcome unit * filesystem :=
  match open_error fs filename with
  | Some e => (Raise e, fs)
  | None =>
      let fs := {| files := <[filename := content]> (files fs);
                   open_error := open_error fs |} in
      (if verbose
       then console_print console (Str ("[green]✓ Saved playlist:[/] " +:+ filename))
       else Return tt,
       fs)
  end.

(** [os.path.getsize(file)]: the number of bytes of the file. *)
Definition getsize (fs : filesystem) (file : string) : outcome nat :=
  match files fs !! file with
  | Some content => Return (String.length content)
  | None => Raise {| exn_class := "FileNotFoundError";
                     exn_str := "[Errno 2] No such file or directory: '" +:+ file +:+ "'" |}
  end.

(** *** [main] *)

(** The arguments [parse_args] returns. *)
Record Args : Type := {
  args_verbose : bool;
  args_output : string;
  args_list_streams : bool;
  args_xspf : bool;
  args_m3u : bool;
  args_pls : bool;
  args_no_health_check : bool
}.

(** The command line without any option. *)
Definition default_args : Args :=
  {| args_verbose := false; args_output := "the_indie_beat_radio";
     args_list_streams := false; args_xspf := false; args_m3u := false;
     args_pls := false; args_no_health_check := false |}.

(** What a run leaves behind: the exit status of the process, the files,
    and the lines written with [print]. *)
Record process : Type := Process {
  exit_code : Z;
  fs_after : filesystem;
  printed : list string
}.

(** One of the three [if args.<format>:] blocks of [main], on what the
    [try] block has come to so far and the files: the encoder is called and
    its document saved; an exception of either, or of anything before,
    leaves the files as they are at that point and skips what follows in
    the [try]. *)
Definition save_format (console : Console) (verbose enabled : bool) (filename : string)
    (content : outcome string) (st : outcome unit * filesystem)
    : outcome unit * filesystem :=
  match st with
  | (Raise e, fs) => (Raise e, fs)
  | (Return _, fs) =>
      if enabled then
        match content with
        | Raise e => (Raise e, fs)
        | Return c => save_playlist console c filename verbose fs
        end
      else (Return tt, fs)
  end.

(** [str(info)] for the third component of a probe result. *)
Definition str_info (inf : info) : string :=
  match inf with
  | Status code => str_int code
  | Text message => message
  end.

(** The keys of a dict in the order [items()] gives them: that of their
    first insertion. *)
Definition keys_in_order (inserted : list string) : list string :=
  foldl (λ keys key, if decide (key ∈ keys) then keys else keys ++ [key]) [] inserted.

(** The table of the health check: one row per key of [health_results],
    which [check_streams] has filled in the order of [stream_urls]. *)
Definition health_table (stream_urls : list string) (health_results : health_map)
    : renderable :=
  Table "Stream Health Check Results" ["URL"; "Status"; "Details"]
    (url ← keys_in_order stream_urls;
     match (health_results !! url : option (bool * info)) with
     | Some (status, inf) =>
         [[url; if status then "[green]✓ OK[/]" else "[red]✗ Failed[/]"; str_info inf]]
     | None => []
     end).

(** What the health check of [main] puts on the console: in verbose mode
    the progress display of [check_streams], whose task takes the URL being
    checked into its description, then the table of the results. *)
Definition show_health_check (console : Console) (verbose : bool)
    (stream_urls : list string) (health_results : health_map) : outcome unit :=
  _ ← (if verbose
       then console_print console
              (Progress ("[cyan]Checking streams..." ::
                         ((λ url, "[cyan]Checking: " +:+ url) <$> stream_urls)))
       else Return tt);
  console_print console (health_table stream_urls health_results).

(** The summary at the end of the [try] block: one line that names the
    files, or in verbose mode one line per file with its size. *)
Definition print_summary (console : Console) (verbose : bool)
    (output_files : list string) (fs : filesystem) : outcome unit :=
  if negb verbose then
    console_print console
      (Str ("[green]✓ Created " +:+ pretty (length output_files) +:+ " playlist(s): " +:+
            String.concat ", " output_files +:+ "[/]"))
  else
    for_each (λ file,
                size ← getsize fs file;
                console_print console
                  (Str ("  • " +:+ file +:+ " [" +:+ pretty size +:+ " bytes]")))
             output_files.

(** The exception classes of [requests.exceptions]: [RequestException] and
    the classes derived from it. *)
Definition requests_exceptions : list string :=
  [ "RequestException"; "InvalidJSONError"; "JSONDecodeError"; "HTTPError";
    "ConnectionError"; "ProxyError"; "SSLError"; "Timeout"; "ConnectTimeout";
    "ReadTimeout"; "URLRequired"; "TooManyRedirects"; "MissingSchema";
    "InvalidSchema"; "InvalidURL"; "InvalidHeader"; "InvalidProxyURL";
    "ChunkedEncodingError"; "ContentDecodingError"; "StreamConsumedError";
    "RetryError"; "UnrewindableBodyError" ].

(** [isinstance(e, requests.RequestException)] *)
Definition isinstance_RequestException (e : exn) : bool :=
  bool_decide (exn_class e ∈ requests_exceptions).

(** The two [except] clauses of [main], for the exception [e] that left the
    [try] block: the message is printed (in verbose mode the traceback too)
    and 1 is returned; an exception of the console leaves [main]. *)
Definition main_except (console : Console) (verbose : bool) (e : exn) : outcome Z :=
  if isinstance_RequestException e then
    _ ← console_print console
          (Str ("[bold red]Error fetching data from API:[/] " +:+ exn_str e));
    Return 1%Z
  else
    _ ← console_print console
          (Str ("[bold red]Error creating playlists:[/] " +:+ exn_str e));
    _ ← (if verbose then console_print console (Traceback e) else Return tt);
    Return 1%Z.

(** [sys.exit(asyncio.run(main()))]: the exit status is what [main]
    returns; when an exception leaves [main] the interpreter prints the
    traceback and the exit status is 1. *)
Definition exit_status (result : outcome Z) : Z :=
  match result with
  | Return code => code
  | Raise _ => 1%Z
  end.

(** The [try] block of [main]: what it returns or raises, the files at that
    point, and the lines written with [print]. *)
Definition main_try (args : Args) (console : Console) (api : directory) (net : network)
    (now : string) (clock : nat) (fs : filesystem)
    : outcome Z * filesystem * list string :=
  let none := negb (args_xspf args || args_m3u args || args_pls args) in
  let xspf := if none then true else args_xspf args in
  let m3u := if none then true else args_m3u args in
  let pls := if none then true else args_pls args in
  match fetch_station_data api with
  | Raise e => (Raise e, fs, [])
  | Return station_data =>
      let stream_urls := stream_urls station_data in
      if args_list_streams args then (Return 0%Z, fs, stream_urls)
      else
        let health_results :=
          main_health_results (args_no_health_check args) net station_data clock in
        let shown :=
          if negb (args_no_health_check args)
          then show_health_check console (args_verbose args) stream_urls health_results
          else Return tt in
        let st := (shown, fs) in
        let st := save_format console (args_verbose args) xspf (args_output args +:+ ".xspf")
                    (create_xspf_playlist now station_data health_results) st in
        let st := save_format console (args_verbose args) m3u (args_output args +:+ ".m3u")
                    (Return (create_m3u_playlist station_data health_results)) st in
        let st := save_format console (args_verbose args) pls (args_output args +:+ ".pls")
                    (Return (create_pls_playlist station_data health_results)) st in
        let output_files :=
          (if xspf then [args_output args +:+ ".xspf"] else []) ++
          (if m3u then [args_output args +:+ ".m3u"] else []) ++
          (if pls then [args_output args +:+ ".pls"] else []) in
        match st with
        | (Raise e, fs') => (Raise e, fs', [])
        | (Return _, fs') =>
            (_ ← print_summary console (args_verbose args) output_files fs'; Return 0%Z,
             fs', [])
        end
  end.

(** A run of the program, given the parsed arguments, the console, the
    directory service, the network the probes meet, the clock text the XSPF
    encoder reads, the clock reading at which the health check starts, and
    the files. *)
Definition main (args : Args) (console : Console) (api : directory) (net : network)
    (now : string) (clock : nat) (fs : filesystem) : process :=
  let tried := main_try args console api net now clock fs in
  {| exit_code :=
       exit_status (try_except tried.1.1 (main_except console (args_verbose args)));
     fs_after := tried.1.2;
     printed := tried.2 |}.

(** The mounts of a station that are not mp3 mounts taken away. *)
Definition mp3_only (st : station) : station :=
  {| s_name := s_name st; s_description := s_description st; s_url := s_url st;
     s_genre := s_genre st; s_art := s_art st;
     s_mounts := filter (λ mt, m_format mt = "mp3") (s_mounts st) |}.

(** The text of the first sub-element with a given tag. *)
Definition child_text (tag : string) (e : Element) : option string :=
  match filter (λ c, tag_of c = tag) (children_of e) with
  | Elem _ _ text _ :: _ => text
  | [] => None
  end.

(** The [track] elements of an XSPF tree: the sub-elements of its
    [trackList]. *)
Definition tracks_of (playlist : Element) : list Element :=
  c ← children_of playlist;
  if decide (tag_of c = "trackList") then children_of c else [].

(** A directory service that answers with the stations of the scenario, and
    a file system with one old file that refuses nothing. *)
Definition scenario_directory : directory :=
  inr {| status_code := 200; reason := "OK"; json := Return scenario_stations |}.
Definition old_files : filesystem :=
  {| files := <["notes.txt" := "keep"]> ∅; open_error := λ _, None |}.

(** The three file names of a run. *)
Definition output_files (args : Args) : list string :=
  [ args_output args +:+ ".xspf"; args_output args +:+ ".m3u";
    args_output args +:+ ".pls" ].

(** A network on which a stream answers [200] to a request made before the
    first second and [503] afterwards. *)
Definition fading_network : network :=
  λ _ t _, {| x_get := inr (if bool_decide (t < 1) then 200%Z else 503%Z);
              x_read := if bool_decide (t < 1) then None
                        else Some {| exn_class := "ClientPayloadError";
                                     exn_str := "Response payload is not completed" |};
              x_elapsed := 1 |}.

(** A directory service that answers with the station whose name XML
    refuses, and a file system on which the M3U file cannot be opened. *)
Definition bell_directory : directory :=
  inr {| status_code := 200; reason := "OK"; json := Return [bell_station] |}.
Definition m3u_locked : filesystem :=
  {| files := <["notes.txt" := "keep"]> ∅;
     open_error := λ name,
       if bool_decide (name = "the_indie_beat_radio.m3u")
       then Some {| exn_class := "PermissionError";
                    exn_str := "[Errno 13] Permission denied: 'the_indie_beat_radio.m3u'" |}
       else None |}.

(** Whether a run writes a format: the format is asked for, or none is. *)
Definition writes (fmt : playlist_format) (args : Args) : bool :=
  let none := negb (args_xspf args || args_m3u args || args_pls args) in
  match fmt with
  | XSPF => if none then true else args_xspf args
  | M3U => if none then true else args_m3u args
  | PLS => if none then true else args_pls args
  end.

(** The file names of the formats a run writes, in the order in which it
    writes them. *)
Definition written_files (args : Args) : list string :=
  (if writes XSPF args then [args_output args +:+ ".xspf"] else []) ++
  (if writes M3U args then [args_output args +:+ ".m3u"] else []) ++
  (if writes PLS args then [args_output args +:+ ".pls"] else []).

(** The files once a document is saved under a name, when the format is
    written. *)
Definition saved (enabled : bool) (filename content : string) (fs : filesystem)
    : filesystem :=
  if enabled
  then {| files := <[filename := content]> (files fs); open_error := open_error fs |}
  else fs.

(** The message of [save_playlist] in verbose mode. *)
Definition saved_message (filename : string) : renderable :=
  Str ("[green]✓ Saved playlist:[/] " +:+ filename).

(** A console that shows whatever it is given, as rich does while no URL,
    file name or message holds a bracket. *)
Definition showing_console : Console := λ _, None.

(** The exception of rich for the closing tag [[/b]] at position 9 of a
    text. *)
Definition MarkupError : exn :=
  {| exn_class := "MarkupError";
     exn_str := "closing tag '[/b]' at position 9 doesn't match any open tag" |}.

(** A station whose stream URL ends with the closing tag [[/b]], the
    directory service that answers with it, and a console that refuses a
    table with that URL in a cell, as rich does. *)
Definition tagged_station : station :=
  Station "Tagged" Absent Absent Absent Absent [Mount "http://a/[/b]" "mp3" Absent].
Definition tagged_directory : directory :=
  inr {| status_code := 200; reason := "OK"; json := Return [tagged_station] |}.
Definition tag_refusing_console : Console :=
  λ r, match r with
       | Table _ _ rows =>
           if bool_decide (Exists (λ row, "http://a/[/b]" ∈ row) rows)
           then Some MarkupError else None
       | _ => None
       end.

(** A network on which the stream [http://a/1] answers [200] and delivers
    its first chunk, and every other request runs into the timeout. *)
Definition alpha_only_network : network :=
  λ timeout _ url,
    if bool_decide (url = "http://a/1")
    then {| x_get := inr 200%Z; x_read := None; x_elapsed := 1 |}
    else {| x_get := inl {| exn_class := "TimeoutError"; exn_str := "" |};
            x_read := None; x_elapsed := timeout |}.

(** * Properties *)

(** ** Strings *)

Lemma append_nil_r (s : string) : s +:+ "" = s.
Proof. induction s as [|c s IH]; simpl; [done|]. unfold String.app in *. simpl. by rewrite IH. Qed.

Lemma append_assoc (s1 s2 s3 : string) : (s1 +:+ s2) +:+ s3 = s1 +:+ (s2 +:+ s3).
Proof. induction s1 as [|c s1 IH]; [done|]. unfold String.app in *. simpl. by rewrite IH. Qed.

Lemma concat_strings_app (l1 l2 : list string) :
  concat_strings (l1 ++ l2) = concat_strings l1 +:+ concat_strings l2.
Proof.
  induction l1 as [|x l1 IH]; [done|].
  unfold concat_strings in *. simpl. by rewrite IH, append_assoc.
Qed.

Lemma unlines_app (l1 l2 : list string) : unlines (l1 ++ l2) = unlines l1 +:+ unlines l2.
Proof. unfold unlines. by rewrite map_app, concat_strings_app. Qed.

Lemma unlines_cons (l : string) (ls : list string) : unlines (l :: ls) = (l +:+ nl) +:+ unlines ls.
Proof. done. Qed.

Lemma unlines_nil : unlines [] = "".
Proof. done. Qed.

(** ** The loops visit the healthy candidates in order *)

Lemma health_status_true (h : health_map) (url : string) :
  health_status h url = true ↔ ∃ inf, h !! url = Some (true, inf).
Proof.
  unfold health_status. destruct (h !! url) as [[[] inf]|]; simpl.
  - split; [eauto|done].
  - split; [done|]. by intros [? [=]].
  - split; [done|]. by intros [? [=]].
Qed.

Lemma health_status_missing (h : health_map) (url : string) :
  h !! url = None → health_status h url = false.
Proof. unfold health_status. by intros ->. Qed.

Lemma candidates_cons (st : station) (sd : list station) :
  candidates (st :: sd) = candidates [st] ++ candidates sd.
Proof. unfold candidates. rewrite !bind_cons. simpl. by rewrite app_nil_r. Qed.

Lemma emitted_cons (st : station) (sd : list station) (h : health_map) :
  emitted (st :: sd) h = emitted [st] h ++ emitted sd h.
Proof. unfold emitted. by rewrite candidates_cons, filter_app. Qed.

Section nested_loops.
Context {S : Type}.
Variable health_results : health_map.
(** The body of the inner loop, and what it does to the state for an entry
    it emits. *)
Variable body : station → S → mount → S.
Variable emit : S → station * mount → S.
Hypothesis body_spec : ∀ st acc mt,
  body st acc mt =
    if decide (m_format mt = "mp3") then
      if negb (health_status health_results (m_url mt)) then acc else emit acc (st, mt)
    else acc.

Lemma inner_loop (st : station) (mounts : list mount) (acc : S) :
  foldl (body st) acc mounts =
  foldl emit acc
    (filter (λ c, health_status health_results (m_url c.2) = true)
       (mt ← mounts; if decide (m_format mt = "mp3") then [(st, mt)] else [])).
Proof.
  revert acc. induction mounts as [|mt mounts IH]; intros acc; [done|].
  rewrite bind_cons, filter_app, foldl_app. simpl. rewrite IH, body_spec.
  destruct (decide (m_format mt = "mp3")); [|done].
  rewrite filter_cons. simpl.
  by destruct (health_status health_results (m_url mt)).
Qed.

Lemma nested_loops (station_data : list station) (acc : S) :
  foldl (λ acc st, foldl (body st) acc (s_mounts st)) acc station_data =
  foldl emit acc (emitted station_data health_results).
Proof.
  revert acc. induction station_data as [|st sd IH]; intros acc; [done|].
  rewrite emitted_cons, foldl_app. simpl. rewrite IH. f_equal.
  rewrite inner_loop. unfold emitted, candidates.
  rewrite bind_cons. simpl. by rewrite app_nil_r.
Qed.
End nested_loops.


(** ** Each encoder is its document over the healthy candidates *)

Lemma bitrate_info_suffix (b : field Z) :
  (if has_key b then " - " +:+ str_bitrate b +:+ "kbps" else "") = bitrate_suffix b.
Proof. by destruct b. Qed.

Lemma m3u_fold (entries : list (station * mount)) (acc : string) :
  foldl m3u_emit acc entries =
  acc +:+ unlines (c ← entries; [extinf_line c; m_url c.2]).
Proof.
  revert acc. induction entries as [|c entries IH]; intros acc.
  - simpl. by rewrite unlines_nil, append_nil_r.
  - rewrite bind_cons. simpl. rewrite IH. unfold m3u_emit.
    rewrite !unlines_cons, bitrate_info_suffix.
    unfold extinf_line. by rewrite !append_assoc.
Qed.

Lemma create_m3u_playlist_emitted (station_data : list station) (h : health_map) :
  create_m3u_playlist station_data h = unlines (m3u_lines (emitted station_data h)).
Proof.
  unfold create_m3u_playlist.
  rewrite (nested_loops h (m3u_mount h) m3u_emit (λ _ _ _, eq_refl)).
  by rewrite m3u_fold.
Qed.

Lemma pls_fold (entries : list (station * mount)) (content : string) (n : nat) :
  foldl pls_emit (content, n) entries =
  (content +:+ unlines (concat (imap (λ i c, pls_entry (S (n + i)) c) entries)),
   n + length entries).
Proof.
  revert content n. induction entries as [|c entries IH]; intros content n.
  - simpl. by rewrite unlines_nil, append_nil_r, Nat.add_0_r.
  - simpl. rewrite IH. f_equal; [|lia].
    rewrite Nat.add_0_r, !unlines_cons, !append_assoc.
    rewrite (imap_ext _ ((λ i c0, pls_entry (S (n + i)) c0) ∘ S) entries); [done|].
    intros i c' _. simpl. do 2 f_equal. lia.
Qed.

Lemma create_pls_playlist_emitted (station_data : list station) (h : health_map) :
  create_pls_playlist station_data h = unlines (pls_lines (emitted station_data h)).
Proof.
  unfold create_pls_playlist.
  rewrite (nested_loops h (pls_mount h) pls_emit).
  2:{ intros st [content n] mt. unfold pls_mount.
      destruct (decide _); [|done]. by destruct (negb _). }
  rewrite pls_fold. simpl. unfold pls_lines.
  rewrite unlines_cons, unlines_app, !unlines_cons, unlines_nil.
  by rewrite !append_assoc, append_nil_r.
Qed.

Lemma xspf_fold (entries : list (station * mount)) (tracks : list Element) :
  foldl xspf_emit tracks entries = tracks ++ ((λ c, xspf_track c.1 c.2) <$> entries).
Proof.
  revert tracks. induction entries as [|c entries IH]; intros tracks; simpl.
  - by rewrite app_nil_r.
  - rewrite IH. unfold xspf_emit. by rewrite <-app_assoc.
Qed.

Lemma xspf_playlist_emitted (now : string) (station_data : list station) (h : health_map) :
  xspf_playlist now station_data h = xspf_tree now (emitted station_data h).
Proof.
  unfold xspf_playlist, xspf_tree.
  rewrite (nested_loops h (xspf_mount h) xspf_emit (λ _ _ _, eq_refl)).
  by rewrite xspf_fold.
Qed.

(** ** Lines as a reader of the file sees them *)

Lemma no_lf_app (s1 s2 : string) : no_lf (s1 +:+ s2) = no_lf s1 && no_lf s2.
Proof.
  induction s1 as [|c s1 IH]; [done|].
  unfold String.app in *. simpl. by rewrite IH, andb_assoc.
Qed.

Lemma lines_cons_line (l rest : string) :
  no_lf l = true → lines ((l +:+ nl) +:+ rest) = l :: lines rest.
Proof.
  induction l as [|c l IH]; [done|].
  unfold String.app in *. simpl. intros [Hc Hl]%andb_prop.
  apply negb_true_iff in Hc. rewrite Hc. by rewrite IH.
Qed.

Lemma lines_unlines (ls : list string) :
  Forall (λ l, no_lf l = true) ls → lines (unlines ls) = ls.
Proof.
  induction 1 as [|l ls Hl _ IH]; [done|].
  by rewrite unlines_cons, lines_cons_line, IH.
Qed.

Lemma no_lf_pretty_N_go (x : N) (s : string) :
  no_lf s = true → no_lf (pretty_N_go x s) = true.
Proof.
  revert s. induction (N.lt_wf_0 x) as [x _ IH]; intros s Hs.
  destruct (decide (x = 0%N)) as [->|Hx]; [by rewrite pretty_N_go_0|].
  rewrite pretty_N_go_step by lia. apply IH.
  - apply N.div_lt; lia.
  - simpl. rewrite Hs. unfold pretty_N_char. by repeat case_match.
Qed.

Lemma no_lf_pretty_N (x : N) : no_lf (pretty x) = true.
Proof.
  unfold pretty, pretty_N. case_decide; [done|]. by apply no_lf_pretty_N_go.
Qed.

Lemma no_lf_pretty_nat (n : nat) : no_lf (pretty n) = true.
Proof. apply no_lf_pretty_N. Qed.

Lemma no_lf_pretty_Z (z : Z) : no_lf (pretty z) = true.
Proof.
  destruct z as [|p|p]; [done|apply no_lf_pretty_N|].
  unfold pretty, pretty_Z. rewrite no_lf_app. simpl. apply no_lf_pretty_N.
Qed.

Lemma candidate_one_line (station_data : list station) (c : station * mount) :
  Forall station_one_line station_data → c ∈ candidates station_data →
  no_lf (s_name c.1) = true ∧ no_lf (m_url c.2) = true.
Proof.
  intros Hsd Hc. unfold candidates in Hc.
  apply list_elem_of_bind in Hc as (st & Hc & Hst).
  apply list_elem_of_bind in Hc as (mt & Hc & Hmt).
  destruct (decide (m_format mt = "mp3")); [|by apply elem_of_nil in Hc].
  apply list_elem_of_singleton in Hc as ->. simpl.
  rewrite Forall_forall in Hsd. destruct (Hsd st Hst) as [Hname Hmounts].
  rewrite Forall_forall in Hmounts. auto.
Qed.

Lemma emitted_one_line (station_data : list station) (h : health_map) :
  Forall station_one_line station_data →
  Forall (λ c, no_lf (s_name c.1) = true ∧ no_lf (m_url c.2) = true)
         (emitted station_data h).
Proof.
  intros Hsd. apply Forall_forall. intros c Hc. unfold emitted in Hc.
  apply list_elem_of_filter in Hc as [_ Hc]. by eapply candidate_one_line.
Qed.

Lemma no_lf_extinf_line (c : station * mount) :
  no_lf (s_name c.1) = true → no_lf (extinf_line c) = true.
Proof.
  intros Hname. unfold extinf_line. rewrite !no_lf_app, Hname. simpl.
  destruct (m_bitrate c.2) as [| |z]; simpl; [done..|].
  by rewrite !no_lf_app, no_lf_pretty_Z.
Qed.

(** When no station name and no URL holds a line feed, the lines of the M3U
    file are the header, then the [#EXTINF] line and the URL line of each
    healthy candidate: one plus twice the number of healthy candidates. *)
Lemma m3u_lines_of_file (station_data : list station) (h : health_map) :
  Forall station_one_line station_data →
  lines (create_m3u_playlist station_data h) = m3u_lines (emitted station_data h)
  ∧ length (lines (create_m3u_playlist station_data h))
      = 1 + 2 * length (emitted station_data h).
Proof.
  intros Hsd. rewrite create_m3u_playlist_emitted.
  pose proof (emitted_one_line station_data h Hsd) as Hem.
  rewrite lines_unlines.
  - split; [done|]. unfold m3u_lines. simpl. f_equal.
    induction (emitted station_data h) as [|c l IH]; [done|].
    rewrite bind_cons. simpl. rewrite IH; [lia|by inversion Hem].
  - unfold m3u_lines. apply Forall_cons_2; [done|].
    induction Hem as [|c l [Hname Hurl] _ IH]; [done|].
    rewrite bind_cons. simpl. repeat apply Forall_cons_2; [|done..].
    by apply no_lf_extinf_line.
Qed.

Lemma no_lf_pls_entries (entries : list (station * mount)) (k : nat) :
  Forall (λ c, no_lf (s_name c.1) = true ∧ no_lf (m_url c.2) = true) entries →
  Forall (λ l, no_lf l = true)
         (concat (imap (λ i c, pls_entry (S (k + i)) c) entries)).
Proof.
  intros Hem. revert k. induction Hem as [|c l [Hname Hurl] _ IH]; intros k; [done|].
  rewrite imap_cons. simpl. repeat apply Forall_cons_2.
  - by rewrite !no_lf_app, no_lf_pretty_nat, Hurl.
  - by rewrite !no_lf_app, no_lf_pretty_nat, Hname.
  - by rewrite !no_lf_app, no_lf_pretty_nat.
  - rewrite (imap_ext _ (λ i c, pls_entry (S (S k + i)) c)); [apply IH|].
    intros i c' _. simpl. do 2 f_equal. lia.
Qed.

(** The same for the PLS file: three lines per healthy candidate between the
    [[playlist]] line and the two closing lines. *)
Lemma pls_lines_of_file (station_data : list station) (h : health_map) :
  Forall station_one_line station_data →
  lines (create_pls_playlist station_data h) = pls_lines (emitted station_data h).
Proof.
  intros Hsd. rewrite create_pls_playlist_emitted.
  pose proof (emitted_one_line station_data h Hsd) as Hem.
  apply lines_unlines. unfold pls_lines.
  apply Forall_cons_2; [done|]. apply Forall_app_2.
  - by apply (no_lf_pls_entries _ 0).
  - repeat apply Forall_cons_2; [|done..].
    by rewrite no_lf_app, no_lf_pretty_nat.
Qed.

(** ** M3U *)

Lemma lookup_pairs {A B} (f g : A → B) (l : list A) (k : nat) :
  (c ← l; [f c; g c]) !! (2 * k) = f <$> l !! k
  ∧ (c ← l; [f c; g c]) !! (2 * k + 1) = g <$> l !! k.
Proof.
  revert k. induction l as [|c l IH]; intros k; [done|].
  rewrite bind_cons. destruct k as [|k]; [done|].
  replace (2 * S k) with (S (S (2 * k))) by lia.
  replace (S (S (2 * k)) + 1) with (S (S (2 * k + 1))) by lia.
  simpl. apply IH.
Qed.

(** C2, as the code has it: the M3U document is the header [#EXTM3U]
    followed, for each candidate the health map reports healthy and in
    candidate order, by its [#EXTINF] piece and its URL piece, each ended by
    a line feed, and nothing else. When no station name and no mount URL
    holds a line feed, these pieces are the lines of the file: the header,
    then two lines per healthy candidate, the URL line of the k-th healthy
    candidate right after its [#EXTINF] line. The [#EXTINF] line is the
    station name alone for a mount without [bitrate] key and carries the
    decimal digits of an integer bitrate. On the scenario of the
    specification the document is exactly the expected text. *)
Theorem m3u_header_then_two_lines_per_healthy_candidate :
  (∀ (station_data : list station) (h : health_map),
     create_m3u_playlist station_data h =
       unlines ("#EXTM3U" :: (c ← emitted station_data h; [extinf_line c; m_url c.2]))
     ∧ emitted station_data h `sublist_of` candidates station_data
     ∧ (∀ c, c ∈ emitted station_data h ↔
             c ∈ candidates station_data ∧ ∃ inf, h !! m_url c.2 = Some (true, inf))
     ∧ (Forall station_one_line station_data →
        lines (create_m3u_playlist station_data h)
          = "#EXTM3U" :: (c ← emitted station_data h; [extinf_line c; m_url c.2])
        ∧ length (lines (create_m3u_playlist station_data h))
            = 1 + 2 * length (emitted station_data h)
        ∧ (∀ k c, emitted station_data h !! k = Some c →
             lines (create_m3u_playlist station_data h) !! (2 * k + 1)
               = Some (extinf_line c)
             ∧ lines (create_m3u_playlist station_data h) !! (2 * k + 2)
               = Some (m_url c.2))))
  ∧ (∀ st url fmt,
       extinf_line (st, Mount url fmt Absent) = "#EXTINF:-1," +:+ s_name st
       ∧ (∀ z, extinf_line (st, Mount url fmt (Value z))
               = "#EXTINF:-1," +:+ s_name st +:+ " - " +:+ pretty z +:+ "kbps"))
  ∧ create_m3u_playlist scenario_stations scenario_health =
      "#EXTM3U" +:+ nl +:+ "#EXTINF:-1,Alpha - 128kbps" +:+ nl +:+ "http://a/1" +:+ nl.
Proof.
  split_and!; [|intros st url fmt; unfold extinf_line; simpl;
                by rewrite append_nil_r|by vm_compute].
  intros station_data h. split_and!.
  - apply create_m3u_playlist_emitted.
  - apply sublist_filter.
  - intros c. unfold emitted. rewrite list_elem_of_filter, health_status_true. tauto.
  - intros Hsd. destruct (m3u_lines_of_file station_data h Hsd) as [Hlines Hlen].
    split_and!; [done..|].
    intros k c Hk. rewrite Hlines. unfold m3u_lines.
    replace (2 * k + 1) with (S (2 * k)) by lia.
    replace (2 * k + 2) with (S (2 * k + 1)) by lia.
    destruct (lookup_pairs extinf_line (λ c, m_url c.2) (emitted station_data h) k)
      as [Hextinf Hurl].
    rewrite Hk in Hextinf, Hurl. split; [exact Hextinf|exact Hurl].
Qed.

Lemma m3u_header_then_two_lines_per_healthy_candidate_witness :
  lines (create_m3u_playlist scenario_stations scenario_health)
    = "#EXTM3U" :: (c ← emitted scenario_stations scenario_health;
                    [extinf_line c; m_url c.2])
  ∧ length (lines (create_m3u_playlist scenario_stations scenario_health))
      = 1 + 2 * length (emitted scenario_stations scenario_health)
  ∧ (∀ k c, emitted scenario_stations scenario_health !! k = Some c →
       lines (create_m3u_playlist scenario_stations scenario_health) !! (2 * k + 1)
         = Some (extinf_line c)
       ∧ lines (create_m3u_playlist scenario_stations scenario_health) !! (2 * k + 2)
         = Some (m_url c.2)).
Proof.
  destruct m3u_header_then_two_lines_per_healthy_candidate as [Hall _].
  destruct (Hall scenario_stations scenario_health) as (_ & _ & _ & Hlines).
  apply Hlines. unfold scenario_stations, station_one_line.
  repeat (apply Forall_cons_2 || apply Forall_nil_2 || split); reflexivity.
Defined.

(** C2, counterexample: a healthy candidate whose station name holds a line
    feed takes three lines of the file, so the file of one healthy candidate
    has four lines, not the header and two. *)
Lemma m3u_name_with_line_feed_takes_three_lines :
  emitted [two_line_station] all_healthy
    = [(two_line_station, Mount "http://a/1" "mp3" Absent)]
  ∧ create_m3u_playlist [two_line_station] all_healthy
    = "#EXTM3U" +:+ nl +:+ "#EXTINF:-1,two" +:+ nl +:+ "lines" +:+ nl +:+
      "http://a/1" +:+ nl
  ∧ lines (create_m3u_playlist [two_line_station] all_healthy)
    = ["#EXTM3U"; "#EXTINF:-1,two"; "lines"; "http://a/1"]
  ∧ length (lines (create_m3u_playlist [two_line_station] all_healthy)) = 4
  ∧ 1 + 2 * length (emitted [two_line_station] all_healthy) = 3.
Proof. split_and!; by vm_compute. Qed.

(** C7: evaluation at a healthy mount whose [bitrate] key holds [null]: the
    [#EXTINF] line carries the suffix [ - Nonekbps]; the suffix is left out
    exactly when the key is missing. *)
Theorem m3u_null_bitrate_suffix :
  create_m3u_playlist null_bitrate_stations all_healthy =
    "#EXTM3U" +:+ nl +:+ "#EXTINF:-1,Alpha - Nonekbps" +:+ nl +:+ "http://a/1" +:+ nl
  ∧ (∀ b : field Z, bitrate_suffix b = "" ↔ b = Absent).
Proof.
  split; [by vm_compute|].
  intros [| |z]; simpl; split; try done.
Qed.

(** ** PLS *)

(** C3: the PLS document is [[playlist]], then for the k-th healthy
    candidate (k counted from 1 in emission order) the lines [File<k>],
    [Title<k>], [Length<k>], then [NumberOfEntries=<n>] with n the number of
    healthy candidates, then [Version=2] (these are the lines of the file as
    a reader splits it whenever no station name and no URL holds a line
    feed). *)
Theorem pls_entries_numbered_from_one :
  (∀ (station_data : list station) (h : health_map),
     create_pls_playlist station_data h =
       unlines ("[playlist]" ::
                concat (imap (λ i c, pls_entry (S i) c) (emitted station_data h)) ++
                [ "NumberOfEntries=" +:+ pretty (length (emitted station_data h));
                  "Version=2" ])
     ∧ imap (λ i (_ : station * mount), S i) (emitted station_data h)
         = seq 1 (length (emitted station_data h))
     ∧ (∀ c, c ∈ emitted station_data h ↔
             c ∈ candidates station_data ∧ ∃ inf, h !! m_url c.2 = Some (true, inf))
     ∧ (Forall station_one_line station_data →
        lines (create_pls_playlist station_data h) = pls_lines (emitted station_data h)))
  ∧ create_pls_playlist scenario_stations scenario_health =
      "[playlist]" +:+ nl +:+ "File1=http://a/1" +:+ nl +:+ "Title1=Alpha" +:+ nl +:+
      "Length1=-1" +:+ nl +:+ "NumberOfEntries=1" +:+ nl +:+ "Version=2" +:+ nl.
Proof.
  split; [|by vm_compute].
  intros station_data h. split_and!.
  - apply create_pls_playlist_emitted.
  - by rewrite (imap_seq_0 _ S), fmap_S_seq.
  - intros c. unfold emitted. rewrite list_elem_of_filter, health_status_true. tauto.
  - apply pls_lines_of_file.
Qed.

Lemma pls_entries_numbered_from_one_witness :
  lines (create_pls_playlist scenario_stations scenario_health)
    = pls_lines (emitted scenario_stations scenario_health).
Proof.
  destruct pls_entries_numbered_from_one as [Hall _].
  destruct (Hall scenario_stations scenario_health) as (_ & _ & _ & Hlines).
  apply Hlines. unfold scenario_stations, station_one_line.
  repeat (apply Forall_cons_2 || apply Forall_nil_2 || split); reflexivity.
Defined.

(** ** The probe *)

Lemma check_stream_result (self : StreamHealthCheck) (net : network) (url : string)
    (clock : nat) :
  let x := net (timeout self) clock url in
  check_stream self net url clock =
    (Return (url, (probe_result x).1, (probe_result x).2), clock + x_elapsed x).
Proof.
  unfold check_stream, probe_result, session_get, content_read. simpl.
  destruct (x_get _) as [e|status]; [done|]. simpl.
  by destruct (x_read _).
Qed.

(** C5, as the code has it: a probe returns an outcome for its URL whatever
    the transport does; an unhealthy outcome carries [str(e)] of the
    exception that was caught, which is the empty string when the
    exception has no message. *)
Theorem check_stream_always_returns :
  ∀ (self : StreamHealthCheck) (net : network) (url : string) (clock : nat),
    let x := net (timeout self) clock url in
    ∃ ok inf,
      (check_stream self net url clock).1 = Return (url, ok, inf) ∧
      (ok = true ∨
       ∃ e, ok = false ∧ inf = Text (exn_str e) ∧
            (x_get x = inl e ∨ x_read x = Some e)).
Proof.
  intros self net url clock x. rewrite check_stream_result. fold x.
  unfold probe_result. simpl.
  destruct (x_get x) as [e|status] eqn:Hget.
  - exists false, (Text (exn_str e)). split; [done|]. right. exists e. auto.
  - destruct (x_read x) as [e|] eqn:Hread.
    + exists false, (Text (exn_str e)). split; [done|]. right. exists e. auto.
    + exists true, (Status status). auto.
Qed.

(** C5, counterexample: when the request times out the client raises
    [TimeoutError()], the probe reports unhealthy and its reason is the
    empty string. *)
Lemma check_stream_timeout_reason_empty :
  (check_stream StreamHealthCheck_default timeout_network "http://a/1" 0).1
    = Return ("http://a/1", false, Text "")
  ∧ ¬ (∃ reason, reason ≠ "" ∧
         (check_stream StreamHealthCheck_default timeout_network "http://a/1" 0).1
           = Return ("http://a/1", false, Text reason)).
Proof.
  split; [done|]. intros (reason & Hne & Heq). by injection Heq as <-.
Qed.

(** C6, as the code has it: a probe reports healthy exactly when a response
    arrives and the read of the first chunk completes, and it then reports
    the status code of the response, whatever that code is. *)
Theorem check_stream_healthy_iff_read_completes :
  ∀ (self : StreamHealthCheck) (net : network) (url : string) (clock : nat) (inf : info),
    let x := net (timeout self) clock url in
    (check_stream self net url clock).1 = Return (url, true, inf)
    ↔ ∃ status, x_get x = inr status ∧ x_read x = None ∧ inf = Status status.
Proof.
  intros self net url clock inf x. rewrite check_stream_result. fold x.
  unfold probe_result. simpl.
  destruct (x_get x) as [e|status]; [|destruct (x_read x) as [e|]]; simpl.
  - split; [by intros [=]|]. by intros (? & [=] & _).
  - split; [by intros [=]|]. by intros (? & _ & [=] & _).
  - split.
    + intros [= <-]. by exists status.
    + by intros (? & [= <-] & _ & ->).
Qed.

(** C6, counterexample: a stream that answers [404] with a readable body is
    reported healthy, with the status code as its detail. *)
Lemma check_stream_404_is_healthy :
  (check_stream StreamHealthCheck_default not_found_network "http://a/1" 0).1
    = Return ("http://a/1", true, Status 404).
Proof. done. Qed.

(** ** The coordinator *)

Lemma check_streams_step_result (self : StreamHealthCheck) (net : network)
    (results : health_map) (clock : nat) (url : string) :
  let x := net (timeout self) clock url in
  check_streams_step self net (results, clock) url =
    (<[url := probe_result x]> results, clock + x_elapsed x).
Proof.
  unfold check_streams_step. rewrite check_stream_result. simpl.
  by destruct (probe_result _).
Qed.

Lemma check_streams_clock (self : StreamHealthCheck) (net : network)
    (urls : list string) (results : health_map) (clock : nat) :
  (foldl (check_streams_step self net) (results, clock) urls).2 =
  clock + sum_list (probe_durations self net urls clock).
Proof.
  revert results clock. induction urls as [|url urls IH]; intros results clock.
  - simpl. lia.
  - cbn [foldl]. rewrite check_streams_step_result, IH. simpl. lia.
Qed.

Lemma probe_durations_bound (self : StreamHealthCheck) (net : network)
    (urls : list string) (clock : nat) :
  (∀ t u, x_elapsed (net (timeout self) t u) ≤ timeout self) →
  sum_list (probe_durations self net urls clock) ≤ length urls * timeout self.
Proof.
  intros Hbound. revert clock. induction urls as [|url urls IH]; intros clock.
  - done.
  - simpl. specialize (IH (clock + x_elapsed (net (timeout self) clock url))).
    specialize (Hbound clock url). lia.
Qed.

Lemma check_streams_from (self : StreamHealthCheck) (net : network)
    (urls : list string) (results : health_map) (clock : nat) :
  foldl (check_streams_step self net) (results, clock) urls =
    ((check_streams self net urls clock).1 ∪ results,
     (check_streams self net urls clock).2).
Proof.
  unfold check_streams. revert results clock.
  induction urls as [|url urls IH]; intros results clock.
  - simpl. by rewrite (left_id_L ∅ (∪)).
  - cbn [foldl]. rewrite !check_streams_step_result.
    rewrite (IH (<[url := _]> results)), (IH (<[url := _]> ∅)). simpl. f_equal.
    rewrite (insert_union_singleton_l results), insert_empty.
    by rewrite (assoc_L (∪)).
Qed.

Lemma check_streams_cons (self : StreamHealthCheck) (net : network)
    (url : string) (urls : list string) (clock : nat) :
  let x := net (timeout self) clock url in
  let rest := check_streams self net urls (clock + x_elapsed x) in
  check_streams self net (url :: urls) clock =
    (rest.1 ∪ {[url := probe_result x]}, rest.2).
Proof.
  intros x rest. unfold check_streams at 1. cbn [foldl].
  rewrite check_streams_step_result, check_streams_from.
  by rewrite insert_empty.
Qed.

Lemma probe_durations_length (self : StreamHealthCheck) (net : network)
    (urls : list string) (clock : nat) :
  length (probe_durations self net urls clock) = length urls.
Proof.
  revert clock. induction urls as [|url urls IH]; intros clock; [done|].
  simpl. by rewrite IH.
Qed.

Lemma probe_durations_by_url (self : StreamHealthCheck) (net : network)
    (d : string → nat) (urls : list string) (clock : nat) :
  (∀ t u, x_elapsed (net (timeout self) t u) = d u) →
  probe_durations self net urls clock = d <$> urls.
Proof.
  intros Hd. revert clock. induction urls as [|url urls IH]; intros clock; [done|].
  simpl. by rewrite IH, Hd.
Qed.

(** C1, as the code has it: [check_streams] awaits the probes one after
    another, one per element of the list and in list order: the run on a
    list that starts with [url] is the probe of [url] at the start time,
    followed by the run on the rest of the list from the time at which that
    probe has returned. So the run takes the sum of the probes' durations:
    when the time a probe takes depends on its URL alone, the sum over the
    list of that time, a URL listed twice counted twice; and at most the
    number of URLs times the timeout when every probe keeps to the
    timeout. *)
Theorem check_streams_takes_sum_of_probes :
  ∀ (self : StreamHealthCheck) (net : network) (urls : list string) (clock : nat),
    check_streams self net [] clock = (∅, clock)
    ∧ (∀ url,
         let x := net (timeout self) clock url in
         let rest := check_streams self net urls (clock + x_elapsed x) in
         check_streams self net (url :: urls) clock
           = (rest.1 ∪ {[url := probe_result x]}, rest.2))
    ∧ (check_streams self net urls clock).2
        = clock + sum_list (probe_durations self net urls clock)
    ∧ length (probe_durations self net urls clock) = length urls
    ∧ (∀ d : string → nat,
         (∀ t u, x_elapsed (net (timeout self) t u) = d u) →
         (check_streams self net urls clock).2 = clock + sum_list (d <$> urls))
    ∧ ((∀ t u, x_elapsed (net (timeout self) t u) ≤ timeout self) →
       (check_streams self net urls clock).2 - clock ≤ length urls * timeout self).
Proof.
  intros self net urls clock. split_and!.
  - done.
  - intros url. apply check_streams_cons.
  - apply check_streams_clock.
  - apply probe_durations_length.
  - intros d Hd. unfold check_streams.
    by rewrite check_streams_clock, (probe_durations_by_url self net d).
  - intros Hbound. unfold check_streams. rewrite check_streams_clock.
    pose proof (probe_durations_bound self net urls clock Hbound). lia.
Qed.

Lemma check_streams_takes_sum_of_probes_witness :
  (check_streams StreamHealthCheck_default steady_network ["http://a/1"; "http://a/2"] 0).2
    = 0 + sum_list ((λ _, 1) <$> ["http://a/1"; "http://a/2"])
  ∧ (check_streams StreamHealthCheck_default steady_network
       ["http://a/1"; "http://a/2"] 0).2 - 0 ≤ 2 * 5.
Proof.
  destruct (check_streams_takes_sum_of_probes StreamHealthCheck_default steady_network
              ["http://a/1"; "http://a/2"] 0) as (_ & _ & _ & _ & Hsum & Hbound).
  split.
  - apply (Hsum (λ _, 1)). intros t u. reflexivity.
  - apply Hbound. intros t u. simpl. lia.
Defined.

(** C1, counterexample: two streams that each answer after one second are
    checked in two seconds, twice the time of the slowest probe. *)
Lemma check_streams_slower_than_slowest_probe :
  (check_streams StreamHealthCheck_default steady_network
     ["http://a/1"; "http://a/2"] 0).2 - 0 = 2
  ∧ max_list ((λ u, x_elapsed (steady_network 5 0 u)) <$> ["http://a/1"; "http://a/2"]) = 1
  ∧ ¬ ((check_streams StreamHealthCheck_default steady_network
          ["http://a/1"; "http://a/2"] 0).2 - 0
       ≤ max_list ((λ u, x_elapsed (steady_network 5 0 u)) <$> ["http://a/1"; "http://a/2"])).
Proof.
  split_and!; [done|done|]. vm_compute. lia.
Qed.

(** ** Health maps the encoders cannot tell apart *)

Lemma candidate_url_in_stream_urls (station_data : list station) (c : station * mount) :
  c ∈ candidates station_data → m_url c.2 ∈ stream_urls station_data.
Proof.
  unfold candidates, stream_urls. rewrite !list_elem_of_bind.
  intros (st & Hc & Hst). exists st. split; [|done].
  apply list_elem_of_bind in Hc as (mt & Hc & Hmt).
  apply list_elem_of_bind. exists mt. split; [|done].
  destruct (decide (m_format mt = "mp3")); [|by apply elem_of_nil in Hc].
  apply list_elem_of_singleton in Hc as ->. simpl. by apply list_elem_of_singleton.
Qed.

Lemma filter_agree {A} (P Q : A → Prop) `{!∀ x, Decision (P x)} `{!∀ x, Decision (Q x)}
    (l : list A) :
  (∀ x, x ∈ l → P x ↔ Q x) → filter P l = filter Q l.
Proof.
  induction l as [|x l IH]; intros Hl; [done|].
  rewrite !filter_cons.
  rewrite IH by (intros y Hy; apply Hl; by right).
  pose proof (Hl x (list_elem_of_here x l)).
  destruct (decide (P x)), (decide (Q x)); tauto || done.
Qed.

Lemma emitted_agree (station_data : list station) (h1 h2 : health_map) :
  (∀ u, u ∈ stream_urls station_data → health_status h1 u = health_status h2 u) →
  emitted station_data h1 = emitted station_data h2.
Proof.
  intros H. unfold emitted. apply filter_agree.
  intros c Hc. by rewrite (H _ (candidate_url_in_stream_urls _ _ Hc)).
Qed.

Lemma encoders_agree (now : string) (station_data : list station) (h1 h2 : health_map) :
  emitted station_data h1 = emitted station_data h2 →
  create_xspf_playlist now station_data h1 = create_xspf_playlist now station_data h2
  ∧ create_m3u_playlist station_data h1 = create_m3u_playlist station_data h2
  ∧ create_pls_playlist station_data h1 = create_pls_playlist station_data h2.
Proof.
  intros H. unfold create_xspf_playlist.
  by rewrite !xspf_playlist_emitted, !create_m3u_playlist_emitted,
       !create_pls_playlist_emitted, H.
Qed.

Lemma health_status_insert (h : health_map) (u v : string) (r : bool * info) :
  health_status (<[u := r]> h) v = if decide (u = v) then r.1 else health_status h v.
Proof.
  unfold health_status. rewrite lookup_insert. by destruct (decide (u = v)).
Qed.

Lemma check_streams_all_healthy (self : StreamHealthCheck) (net : network)
    (urls : list string) (results : health_map) (clock : nat) (u : string) :
  (∀ t v, v ∈ urls → (probe_result (net (timeout self) t v)).1 = true) →
  u ∈ urls ∨ health_status results u = true →
  health_status (foldl (check_streams_step self net) (results, clock) urls).1 u = true.
Proof.
  revert results clock. induction urls as [|url urls IH]; intros results clock Hnet Hu.
  - destruct Hu as [Hu|Hu]; [by apply elem_of_nil in Hu|done].
  - cbn [foldl]. rewrite check_streams_step_result. apply IH.
    + intros t v Hv. apply Hnet. by right.
    + rewrite health_status_insert. destruct (decide (url = u)) as [->|Hne].
      * right. apply Hnet. by left.
      * destruct Hu as [Hu|Hu]; [|by right].
        apply elem_of_cons in Hu as [->|Hu]; [done|by left].
Qed.

Lemma skipped_results_healthy (urls : list string) (results : health_map) (u : string) :
  u ∈ urls ∨ health_status results u = true →
  health_status
    (foldl (λ d url, <[url := (true, Text "Health check skipped")]> d) results urls) u = true.
Proof.
  revert results. induction urls as [|url urls IH]; intros results Hu.
  - destruct Hu as [Hu|Hu]; [by apply elem_of_nil in Hu|done].
  - cbn [foldl]. apply IH.
    rewrite health_status_insert. destruct (decide (url = u)) as [->|Hne]; [by right|].
    destruct Hu as [Hu|Hu]; [|by right].
    apply elem_of_cons in Hu as [->|Hu]; [done|by left].
Qed.

(** C9: the three documents [main] writes with [--no-health-check] are the
    documents it writes with the health check enabled when the probe of
    every stream URL reports healthy, and the documents of any health map
    that holds a healthy entry for every stream URL (the XSPF documents
    compared at the same reading of the clock). *)
Theorem skipped_check_same_documents_as_all_healthy :
  ∀ (net : network) (station_data : list station) (now : string) (clock : nat)
    (h : health_map),
    (∀ t u, u ∈ stream_urls station_data →
       ∃ status, x_get (net (timeout StreamHealthCheck_default) t u) = inr status ∧
                 x_read (net (timeout StreamHealthCheck_default) t u) = None) →
    (∀ u, u ∈ stream_urls station_data → ∃ inf, h !! u = Some (true, inf)) →
    (create_xspf_playlist now station_data (main_health_results true net station_data clock)
       = create_xspf_playlist now station_data
           (main_health_results false net station_data clock)
     ∧ create_m3u_playlist station_data (main_health_results true net station_data clock)
       = create_m3u_playlist station_data (main_health_results false net station_data clock)
     ∧ create_pls_playlist station_data (main_health_results true net station_data clock)
       = create_pls_playlist station_data (main_health_results false net station_data clock))
    ∧ (create_xspf_playlist now station_data (main_health_results true net station_data clock)
         = create_xspf_playlist now station_data h
       ∧ create_m3u_playlist station_data (main_health_results true net station_data clock)
         = create_m3u_playlist station_data h
       ∧ create_pls_playlist station_data (main_health_results true net station_data clock)
         = create_pls_playlist station_data h).
Proof.
  intros net station_data now clock h Hnet Hh.
  assert (Hskipped : ∀ u, u ∈ stream_urls station_data →
            health_status (main_health_results true net station_data clock) u = true).
  { intros u Hu. unfold main_health_results, skipped_results. simpl.
    apply skipped_results_healthy. by left. }
  split; apply encoders_agree, emitted_agree; intros u Hu; rewrite (Hskipped u Hu).
  - unfold main_health_results, check_streams. simpl. symmetry.
    apply check_streams_all_healthy; [|by left].
    intros t v Hv. destruct (Hnet t v Hv) as (status & Hget & Hread).
    unfold probe_result. by rewrite Hget, Hread.
  - symmetry. by apply health_status_true, Hh.
Qed.

Lemma skipped_check_same_documents_as_all_healthy_witness :
  (create_xspf_playlist "2024-01-01T00:00:00+00:00" scenario_stations
       (main_health_results true steady_network scenario_stations 0)
     = create_xspf_playlist "2024-01-01T00:00:00+00:00" scenario_stations
         (main_health_results false steady_network scenario_stations 0)
   ∧ create_m3u_playlist scenario_stations
       (main_health_results true steady_network scenario_stations 0)
     = create_m3u_playlist scenario_stations
         (main_health_results false steady_network scenario_stations 0)
   ∧ create_pls_playlist scenario_stations
       (main_health_results true steady_network scenario_stations 0)
     = create_pls_playlist scenario_stations
         (main_health_results false steady_network scenario_stations 0))
  ∧ (create_xspf_playlist "2024-01-01T00:00:00+00:00" scenario_stations
         (main_health_results true steady_network scenario_stations 0)
       = create_xspf_playlist "2024-01-01T00:00:00+00:00" scenario_stations
           scenario_all_healthy
     ∧ create_m3u_playlist scenario_stations
         (main_health_results true steady_network scenario_stations 0)
       = create_m3u_playlist scenario_stations scenario_all_healthy
     ∧ create_pls_playlist scenario_stations
         (main_health_results true steady_network scenario_stations 0)
       = create_pls_playlist scenario_stations scenario_all_healthy).
Proof.
  apply (skipped_check_same_documents_as_all_healthy steady_network scenario_stations
           "2024-01-01T00:00:00+00:00" 0 scenario_all_healthy).
  - intros t u _. exists 200%Z. split; reflexivity.
  - intros u Hu. vm_compute in Hu.
    apply elem_of_cons in Hu as [->|Hu]; [by eexists|].
    apply elem_of_cons in Hu as [->|Hu]; [by eexists|].
    by apply elem_of_nil in Hu.
Defined.

(** ** When the XSPF encoder returns *)

Lemma reparse_unfold (tag : string) (attrib : list (string * string))
    (text : option string) (children : list Element) :
  reparse (Elem tag attrib text children) =
    (attributes ← reparse_attrib attrib;
     text_nodes ← reparse_text text;
     child_nodes ← reparse_children children;
     Return (ElementNode tag attributes (text_nodes ++ child_nodes))).
Proof. done. Qed.

Lemma reparse_text_returns (text : option string) :
  text_ok text = true → ∃ ns, reparse_text text = Return ns.
Proof.
  destruct text as [s|]; simpl; [|by eexists].
  intros ->. case_bool_decide; by eexists.
Qed.

Lemma reparse_children_returns (es : list Element) :
  Forall (λ e, ∃ n, reparse e = Return n) es → ∃ ns, reparse_children es = Return ns.
Proof.
  induction 1 as [|e es [n Hn] _ [ns Hns]]; [by eexists|].
  cbn [reparse_children]. fold reparse_children.
  rewrite Hn. simpl. rewrite Hns. by eexists.
Qed.

Lemma reparse_leaf_returns (tag : string) (attrib : list (string * string))
    (text : option string) :
  forallb (λ a, xml_chars_ok a.2) attrib = true →
  text_ok text = true →
  ∃ n, reparse (Elem tag attrib text []) = Return n.
Proof.
  intros Hattrib [ns Hns]%reparse_text_returns.
  rewrite reparse_unfold. unfold reparse_attrib. rewrite Hattrib. simpl.
  rewrite Hns. by eexists.
Qed.

Lemma dict_get_ok (f : field string) : field_ok f = true → text_ok (dict_get f "") = true.
Proof. by destruct f. Qed.

Lemma reparse_track_returns (c : station * mount) :
  candidate_ok c = true → ∃ n, reparse (xspf_track c.1 c.2) = Return n.
Proof.
  destruct c as [st mt]. unfold candidate_ok. cbn [fst snd].
  intros (((((Hurl & Hname)%andb_prop & Hdesc)%andb_prop & Hinfo)%andb_prop
            & Hgenre)%andb_prop & Hart)%andb_prop.
  unfold xspf_track. rewrite reparse_unfold. simpl reparse_attrib. simpl reparse_text.
  destruct (reparse_children_returns
    ([Elem "location" [] (Some (m_url mt)) []; Elem "title" [] (Some (s_name st)) [];
      Elem "creator" [] (Some "The Indie Beat Radio") [];
      Elem "annotation" [] (dict_get (s_description st) "") [];
      Elem "info" [] (dict_get (s_url st) "") []] ++
     (if present_and_truthy (s_genre st)
      then [Elem "meta" [("rel", "genre")] (Some (text_of (s_genre st))) []] else []) ++
     (if present_and_truthy (s_art st)
      then [Elem "image" [] (Some (text_of (s_art st))) []] else []))) as [ns Hns].
  - repeat apply Forall_app_2; repeat apply Forall_cons_2; try apply Forall_nil_2;
      try (by apply reparse_leaf_returns; [done|try apply dict_get_ok]).
    + destruct (s_genre st) as [| |g]; simpl; try apply Forall_nil_2.
      destruct (negb _); [|apply Forall_nil_2].
      apply Forall_cons_2; [|apply Forall_nil_2]. by apply reparse_leaf_returns.
    + destruct (s_art st) as [| |a]; simpl; try apply Forall_nil_2.
      destruct (negb _); [|apply Forall_nil_2].
      apply Forall_cons_2; [|apply Forall_nil_2]. by apply reparse_leaf_returns.
  - rewrite Hns. by eexists.
Qed.

Lemma xspf_tree_returns (now : string) (entries : list (station * mount)) :
  xml_chars_ok now = true →
  Forall (λ c, candidate_ok c = true) entries →
  ∃ doc, (reparsed ← reparse (xspf_tree now entries);
          Return (toprettyxml "  " reparsed)) = Return doc.
Proof.
  intros Hnow Hentries. unfold xspf_tree.
  destruct (reparse_children_returns
    [ Elem "title" [] (Some "The Indie Beat Radio Streams") [];
      Elem "date" [] (Some now) [];
      Elem "trackList" [] None ((λ c, xspf_track c.1 c.2) <$> entries) ]) as [ns Hns].
  - repeat apply Forall_cons_2; try apply Forall_nil_2;
      try (by apply reparse_leaf_returns).
    rewrite reparse_unfold. simpl reparse_attrib. simpl reparse_text.
    destruct (reparse_children_returns ((λ c, xspf_track c.1 c.2) <$> entries))
      as [ts Hts].
    + apply Forall_fmap. eapply Forall_impl; [exact Hentries|].
      intros c Hc. by apply reparse_track_returns.
    + rewrite Hts. by eexists.
  - rewrite reparse_unfold, Hns. by eexists.
Qed.

Lemma create_xspf_playlist_returns (now : string) (station_data : list station)
    (h : health_map) :
  xml_chars_ok now = true →
  Forall (λ c, candidate_ok c = true) (emitted station_data h) →
  ∃ doc, create_xspf_playlist now station_data h = Return doc.
Proof.
  intros Hnow Hentries. unfold create_xspf_playlist. rewrite xspf_playlist_emitted.
  by apply xspf_tree_returns.
Qed.

(** Conversely, the parser raises on the first text it refuses, and it
    raises nothing but [ExpatError]. *)
Lemma reparse_text_inv (text : option string) :
  (∃ ns, reparse_text text = Return ns) ∧ text_ok text = true
  ∨ reparse_text text = Raise ExpatError ∧ text_ok text = false.
Proof.
  destruct text as [s|]; simpl; [|left; split; [by eexists|done]].
  case_bool_decide as Hs; [subst; left; split; [by eexists|done]|].
  destruct (xml_chars_ok s); [left; split; [by eexists|done]|by right].
Qed.

Lemma reparse_children_inv (es : list Element) :
  (∃ ns, reparse_children es = Return ns) ∧ Forall (λ e, ∃ n, reparse e = Return n) es
  ∨ ∃ e ex, e ∈ es ∧ reparse e = Raise ex ∧ reparse_children es = Raise ex.
Proof.
  induction es as [|e es IH]; [left; split; [by eexists|done]|].
  cbn [reparse_children]. fold reparse_children.
  destruct (reparse e) as [n|ex] eqn:He; simpl.
  - destruct IH as [[[ns Hns] Hes]|(e' & ex & Hin & He' & Hraise)].
    + left. rewrite Hns. split; [by eexists|]. apply Forall_cons_2; [by eexists|done].
    + right. exists e', ex. rewrite Hraise. split_and!; [by right|done..].
  - right. exists e, ex. split_and!; [by left|done..].
Qed.

Lemma reparse_leaf_inv (tag : string) (attrib : list (string * string))
    (text : option string) :
  forallb (λ a, xml_chars_ok a.2) attrib = true →
  (∃ n, reparse (Elem tag attrib text []) = Return n) ∧ text_ok text = true
  ∨ reparse (Elem tag attrib text []) = Raise ExpatError ∧ text_ok text = false.
Proof.
  intros Hattrib. rewrite reparse_unfold. unfold reparse_attrib. rewrite Hattrib. simpl.
  destruct (reparse_text_inv text) as [[[ns ->] Hok]|[-> Hok]]; [left|right]; split;
    by eauto.
Qed.

Lemma dict_get_ok_inv (f : field string) : text_ok (dict_get f "") = field_ok f.
Proof. by destruct f. Qed.

Lemma reparse_track_inv (c : station * mount) :
  (∃ n, reparse (xspf_track c.1 c.2) = Return n) ∧ candidate_ok c = true
  ∨ reparse (xspf_track c.1 c.2) = Raise ExpatError ∧ candidate_ok c = false.
Proof.
  destruct (candidate_ok c) eqn:Hok;
    [left; split; [by apply reparse_track_returns|done]|].
  right. split; [|done].
  destruct c as [st mt]. unfold candidate_ok in Hok. cbn [fst snd] in *.
  unfold xspf_track. rewrite reparse_unfold. simpl reparse_attrib. simpl reparse_text.
  cbn [mbind outcome_bind].
  set (children := _ ++ _ ++ _).
  destruct (reparse_children_inv children) as [[_ Hall]|(e & ex & Hin & He & ->)].
  - exfalso. unfold children in Hall.
    apply Forall_app in Hall as [Hfirst Hall]. apply Forall_app in Hall as [Hmeta Himage].
    apply Forall_cons in Hfirst as [[n1 H1] Hfirst].
    apply Forall_cons in Hfirst as [[n2 H2] Hfirst].
    apply Forall_cons in Hfirst as [_ Hfirst].
    apply Forall_cons in Hfirst as [[n4 H4] Hfirst].
    apply Forall_cons in Hfirst as [[n5 H5] _].
    assert (Hleaf : ∀ tag attrib text n,
              forallb (λ a, xml_chars_ok a.2) attrib = true →
              reparse (Elem tag attrib text []) = Return n → text_ok text = true).
    { intros tag attrib text n Hattrib Hn.
      destruct (reparse_leaf_inv tag attrib text Hattrib) as [[_ ?]|[Hr _]];
        [done|congruence]. }
    apply Hleaf in H1, H2, H4, H5; try done. simpl in H1, H2.
    rewrite dict_get_ok_inv in H4, H5.
    assert (Hgenre : field_ok (s_genre st) = true).
    { destruct (s_genre st) as [| |g]; try done. simpl in *.
      case_bool_decide as Hg; [by subst|]. simpl in Hmeta.
      apply Forall_cons in Hmeta as [[n Hn] _]. by apply Hleaf in Hn. }
    assert (Hart : field_ok (s_art st) = true).
    { destruct (s_art st) as [| |a]; try done. simpl in *.
      case_bool_decide as Ha; [by subst|]. simpl in Himage.
      apply Forall_cons in Himage as [[n Hn] _]. by apply Hleaf in Hn. }
    by rewrite H1, H2, H4, H5, Hgenre, Hart in Hok.
  - simpl. f_equal. unfold children in Hin.
    assert (Hleaf : ∀ tag attrib text,
              forallb (λ a, xml_chars_ok a.2) attrib = true →
              reparse (Elem tag attrib text []) = Raise ex → ex = ExpatError).
    { intros tag attrib text Hattrib Hr.
      destruct (reparse_leaf_inv tag attrib text Hattrib) as [[[n Hn] _]|[Hr' _]];
        congruence. }
    rewrite !elem_of_app, !elem_of_cons, elem_of_nil in Hin.
    destruct Hin as [[->|[->|[->|[->|[->|[]]]]]]|[Hin|Hin]];
      try (by eapply Hleaf; [|exact He]).
    + destruct (present_and_truthy (s_genre st)); [|by apply elem_of_nil in Hin].
      apply list_elem_of_singleton in Hin as ->. by eapply Hleaf; [|exact He].
    + destruct (present_and_truthy (s_art st)); [|by apply elem_of_nil in Hin].
      apply list_elem_of_singleton in Hin as ->. by eapply Hleaf; [|exact He].
Qed.

Lemma reparse_tracks_inv (entries : list (station * mount)) :
  (∃ ns, reparse_children ((λ c, xspf_track c.1 c.2) <$> entries) = Return ns)
    ∧ Forall (λ c, candidate_ok c = true) entries
  ∨ reparse_children ((λ c, xspf_track c.1 c.2) <$> entries) = Raise ExpatError
    ∧ ¬ Forall (λ c, candidate_ok c = true) entries.
Proof.
  induction entries as [|c entries IH]; [left; split; [by eexists|done]|].
  rewrite fmap_cons. cbn [reparse_children]. fold reparse_children.
  destruct (reparse_track_inv c) as [[[n ->] Hc]|[-> Hc]]; simpl.
  - destruct IH as [[[ns ->] Hall]|[-> Hall]]; simpl.
    + left. split; [by eexists|by apply Forall_cons_2].
    + right. split; [done|]. by intros [_ ?]%Forall_cons.
  - right. split; [done|]. intros [? _]%Forall_cons. congruence.
Qed.

(** [create_xspf_playlist] returns exactly when the clock text and the texts
    of the candidates it writes are texts XML accepts; otherwise it raises
    [ExpatError]. *)
Lemma create_xspf_playlist_inv (now : string) (station_data : list station)
    (h : health_map) :
  (∃ doc, create_xspf_playlist now station_data h = Return doc)
    ∧ xml_chars_ok now = true
    ∧ Forall (λ c, candidate_ok c = true) (emitted station_data h)
  ∨ create_xspf_playlist now station_data h = Raise ExpatError
    ∧ ¬ (xml_chars_ok now = true
         ∧ Forall (λ c, candidate_ok c = true) (emitted station_data h)).
Proof.
  destruct (xml_chars_ok now) eqn:Hnow.
  - destruct (reparse_tracks_inv (emitted station_data h)) as [[_ Hall]|[Hraise Hall]].
    + left. split_and!; [by apply create_xspf_playlist_returns|done..].
    + right. split; [|by intros [_ ?]].
      unfold create_xspf_playlist. rewrite xspf_playlist_emitted. unfold xspf_tree.
      rewrite reparse_unfold. simpl reparse_attrib. simpl reparse_text.
      cbn [mbind outcome_bind reparse_children]. fold reparse_children.
      rewrite !reparse_unfold. simpl reparse_attrib. simpl reparse_text.
      cbn [mbind outcome_bind reparse_children]. fold reparse_children.
      rewrite Hnow, Hraise. by case_bool_decide.
  - right. split; [|by intros [? _]].
    unfold create_xspf_playlist. rewrite xspf_playlist_emitted. unfold xspf_tree.
    rewrite reparse_unfold. simpl reparse_attrib. simpl reparse_text.
    cbn [mbind outcome_bind reparse_children]. fold reparse_children.
    rewrite !reparse_unfold. simpl reparse_attrib. simpl reparse_text.
    cbn [mbind outcome_bind reparse_children]. fold reparse_children.
    rewrite Hnow. case_bool_decide as Hempty; [by subst|done].
Qed.

(** ** Determinism *)

Lemma plain_chars_xml (s : string) : plain_chars s = true → xml_chars_ok s = true.
Proof.
  induction s as [|c s IH]; [done|]. simpl. intros [Hc Hs]%andb_prop.
  rewrite (IH Hs), andb_true_r.
  destruct c as [[] [] [] [] [] [] [] []]; try done.
Qed.

Lemma plain_chars_eol (s : string) : plain_chars s = true → normalize_eol s = s.
Proof.
  induction s as [|c s IH]; [done|]. simpl. intros [Hc Hs]%andb_prop.
  rewrite (IH Hs).
  destruct c as [[] [] [] [] [] [] [] []]; try done.
Qed.

Lemma plain_chars_write_data (s : string) : plain_chars s = true → write_data s = s.
Proof.
  induction s as [|c s IH]; [done|]. simpl. intros [Hc Hs]%andb_prop.
  rewrite (IH Hs). unfold plain_char in Hc.
  apply andb_prop in Hc as [_ Hc]. apply negb_true_iff in Hc.
  repeat (apply orb_false_elim in Hc as [Hc ?]).
  unfold escape_char.
  repeat (case_bool_decide; [done|]). done.
Qed.

Lemma toprettyxml_playlist (now : string) (tl : Node) :
  toprettyxml "  "
    (ElementNode "playlist" [("xmlns", "http://xspf.org/ns/0/"); ("version", "1")]
       [ ElementNode "title" [] [TextNode "The Indie Beat Radio Streams"];
         ElementNode "date" [] [TextNode now]; tl ])
  = xspf_before_date +:+ write_data now +:+ "</date>" +:+ nl +:+
    writexml "  " "  " nl tl +:+ "</playlist>" +:+ nl.
Proof.
  unfold toprettyxml, xspf_before_date.
  cbn [writexml map concat_strings foldr].
  rewrite !append_assoc.
  vm_compute. reflexivity.
Qed.

Lemma xspf_document_shape (now : string) (entries : list (station * mount)) :
  clock_text now = true →
  (reparsed ← reparse (xspf_tree now entries); Return (toprettyxml "  " reparsed))
  = (tracks ← reparse_children ((λ c, xspf_track c.1 c.2) <$> entries);
     Return (xspf_before_date +:+ now +:+ xspf_after_date tracks)).
Proof.
  intros [Hne Hplain]%andb_prop. apply negb_true_iff, bool_decide_eq_false in Hne.
  unfold xspf_tree. rewrite reparse_unfold.
  replace (reparse_attrib [("version", "1"); ("xmlns", "http://xspf.org/ns/0/")])
    with (Return (A:=list (string * string))
            [("xmlns", "http://xspf.org/ns/0/"); ("version", "1")]) by (by vm_compute).
  simpl reparse_text.
  cbn [mbind outcome_bind reparse_children]. fold reparse_children.
  rewrite !reparse_unfold. simpl reparse_attrib. simpl reparse_text.
  cbn [mbind outcome_bind reparse_children]. fold reparse_children.
  rewrite (plain_chars_xml _ Hplain), (plain_chars_eol _ Hplain).
  rewrite bool_decide_eq_false_2 by done.
  cbn [mbind outcome_bind].
  destruct (reparse_children _) as [tracks|e]; [|done].
  change (reparse_attrib []) with (Return (A:=list (string * string)) []).
  cbn [mbind outcome_bind app].
  rewrite toprettyxml_playlist, (plain_chars_write_data _ Hplain).
  unfold xspf_after_date.
  done.
Qed.

Lemma list_ascii_of_string_app (s t : string) :
  String.list_ascii_of_string (s +:+ t) = String.list_ascii_of_string s ++ String.list_ascii_of_string t.
Proof. induction s as [|c s IH]; [done|]. unfold String.app in *. simpl. by rewrite IH. Qed.

Lemma append_inv_head (s t1 t2 : string) : s +:+ t1 = s +:+ t2 → t1 = t2.
Proof. apply (inj (String.app s)). Qed.

Lemma append_inv_tail (s1 s2 t : string) : s1 +:+ t = s2 +:+ t → s1 = s2.
Proof.
  intros H. apply (f_equal String.list_ascii_of_string) in H.
  rewrite !list_ascii_of_string_app in H. apply app_inv_tail in H.
  apply (f_equal String.string_of_list_ascii) in H.
  by rewrite !String.string_of_list_ascii_of_string in H.
Qed.

Lemma xspf_document_by_clock (now : string) (station_data : list station)
    (h : health_map) :
  clock_text now = true →
  create_xspf_playlist now station_data h
  = (tracks ← reparse_children ((λ c, xspf_track c.1 c.2) <$> emitted station_data h);
     Return (xspf_before_date +:+ now +:+ xspf_after_date tracks)).
Proof.
  intros Hnow. unfold create_xspf_playlist. rewrite xspf_playlist_emitted.
  by apply xspf_document_shape.
Qed.

(** C4, as the code has it: the M3U and PLS encoders are functions of their
    two arguments alone: whatever the clock, the network and the files are,
    the document is that of the healthy candidates. The XSPF encoder also
    reads the clock and writes its text into the [date] element: it is a
    function of its two arguments and that text. For two clock texts in the
    manner of [isoformat()], both calls return or both raise, the documents
    returned are a text before the clock text and a text after it that are
    the same for the two calls, and the two documents are equal exactly
    when the two clock texts are. *)
Theorem encoders_depend_on_arguments_and_xspf_on_clock :
  ∀ (w1 w2 : ambient) (station_data : list station) (h : health_map),
    (run_encoder M3U w1 station_data h = run_encoder M3U w2 station_data h
     ∧ run_encoder M3U w1 station_data h
       = Return (unlines (m3u_lines (emitted station_data h))))
    ∧ (run_encoder PLS w1 station_data h = run_encoder PLS w2 station_data h
       ∧ run_encoder PLS w1 station_data h
         = Return (unlines (pls_lines (emitted station_data h))))
    ∧ (amb_now w1 = amb_now w2 →
       run_encoder XSPF w1 station_data h = run_encoder XSPF w2 station_data h)
    ∧ (clock_text (amb_now w1) = true → clock_text (amb_now w2) = true →
       ((∃ doc, create_xspf_playlist (amb_now w1) station_data h = Return doc) ↔
        (∃ doc, create_xspf_playlist (amb_now w2) station_data h = Return doc))
       ∧ (∀ doc1, create_xspf_playlist (amb_now w1) station_data h = Return doc1 →
            ∃ after,
              doc1 = xspf_before_date +:+ amb_now w1 +:+ after
              ∧ create_xspf_playlist (amb_now w2) station_data h
                = Return (xspf_before_date +:+ amb_now w2 +:+ after))
       ∧ (∀ doc1 doc2,
            create_xspf_playlist (amb_now w1) station_data h = Return doc1 →
            create_xspf_playlist (amb_now w2) station_data h = Return doc2 →
            (doc1 = doc2 ↔ amb_now w1 = amb_now w2))).
Proof.
  intros w1 w2 station_data h. split_and!.
  - done.
  - simpl. by rewrite create_m3u_playlist_emitted.
  - done.
  - simpl. by rewrite create_pls_playlist_emitted.
  - simpl. by intros ->.
  - intros H1 H2. rewrite !xspf_document_by_clock by done.
    destruct (reparse_children _) as [tracks|e]; simpl.
    + split_and!.
      * split; by eexists.
      * intros doc1 [= <-]. by eexists.
      * intros doc1 doc2 [= <-] [= <-]. split; [|by intros ->].
        intros Heq. apply append_inv_head in Heq. by apply append_inv_tail in Heq.
    + split_and!; [split; by intros [? ?]|done..].
Qed.

Lemma encoders_depend_on_arguments_and_xspf_on_clock_witness :
  run_encoder XSPF midnight scenario_stations scenario_health
    = run_encoder XSPF midnight_elsewhere scenario_stations scenario_health
  ∧ ∀ doc1 doc2,
      create_xspf_playlist (amb_now midnight) scenario_stations scenario_health
        = Return doc1 →
      create_xspf_playlist (amb_now one_second_later) scenario_stations scenario_health
        = Return doc2 →
      (doc1 = doc2 ↔ amb_now midnight = amb_now one_second_later).
Proof.
  split.
  - destruct (encoders_depend_on_arguments_and_xspf_on_clock midnight midnight_elsewhere
                scenario_stations scenario_health) as (_ & _ & Hsame & _).
    apply Hsame. reflexivity.
  - destruct (encoders_depend_on_arguments_and_xspf_on_clock midnight one_second_later
                scenario_stations scenario_health) as (_ & _ & _ & Hclock).
    apply Hclock; reflexivity.
Defined.

(** C4, counterexample: two calls of the XSPF encoder with the same
    arguments, one second apart, return documents that differ in their
    [date] line. *)
Lemma xspf_document_changes_with_clock :
  run_encoder XSPF midnight [] ∅
    = Return (xspf_empty_document "2024-01-01T00:00:00+00:00")
  ∧ run_encoder XSPF one_second_later [] ∅
    = Return (xspf_empty_document "2024-01-01T00:00:01+00:00")
  ∧ run_encoder XSPF midnight [] ∅ ≠ run_encoder XSPF one_second_later [] ∅.
Proof.
  split_and!; [by vm_compute|by vm_compute|].
  vm_compute. intros [=].
Qed.

(** ** Optional fields *)

Lemma candidates_fill (station_data : list station) :
  candidates (fill_station <$> station_data) = fill_candidate <$> candidates station_data.
Proof.
  induction station_data as [|st sd IH]; [done|].
  rewrite fmap_cons, candidates_cons, (candidates_cons st sd), fmap_app, IH. f_equal.
  unfold candidates. rewrite !bind_singleton. simpl.
  induction (s_mounts st) as [|mt mounts IHm]; [done|].
  rewrite !bind_cons, fmap_app, IHm. f_equal.
  by destruct (decide (m_format mt = "mp3")).
Qed.

Lemma emitted_fill (station_data : list station) (h : health_map) :
  emitted (fill_station <$> station_data) h = fill_candidate <$> emitted station_data h.
Proof.
  unfold emitted. rewrite candidates_fill.
  induction (candidates station_data) as [|c l IH]; [done|].
  rewrite fmap_cons, !filter_cons, IH. simpl.
  by destruct (decide (health_status h (m_url c.2) = true)).
Qed.

Lemma reparse_track_fill (st : station) (mt : mount) :
  reparse (xspf_track (fill_station st) mt) = reparse (xspf_track st mt).
Proof.
  destruct st as [name description url genre art mounts].
  unfold xspf_track, fill_station. simpl s_name. simpl s_description. simpl s_url.
  simpl s_genre. simpl s_art.
  assert (Hget : ∀ f, reparse_text (dict_get (fill f) "") = reparse_text (dict_get f "")).
  { by intros [| |s]. }
  assert (Hopt : ∀ (f : field string) (mk : string → Element),
             (if present_and_truthy (fill f) then [mk (text_of (fill f))] else [])
             = (if present_and_truthy f then [mk (text_of f)] else [])).
  { by intros [| |s] mk. }
  rewrite (Hopt genre (λ t, Elem "meta" [("rel", "genre")] (Some t) [])).
  rewrite (Hopt art (λ t, Elem "image" [] (Some t) [])).
  rewrite !reparse_unfold. cbn [reparse_children app].
  rewrite !reparse_unfold. by rewrite !Hget.
Qed.

Lemma reparse_tracks_fill (entries : list (station * mount)) :
  reparse_children ((λ c, xspf_track c.1 c.2) <$> (fill_candidate <$> entries))
  = reparse_children ((λ c, xspf_track c.1 c.2) <$> entries).
Proof.
  induction entries as [|c entries IH]; [done|].
  rewrite !fmap_cons. cbn [reparse_children]. fold reparse_children.
  simpl fst. simpl snd. by rewrite reparse_track_fill, IH.
Qed.

Lemma m3u_lines_fill (entries : list (station * mount)) :
  m3u_lines (fill_candidate <$> entries) = m3u_lines entries.
Proof.
  unfold m3u_lines. f_equal. induction entries as [|c l IH]; [done|].
  by rewrite fmap_cons, !bind_cons, IH.
Qed.

Lemma pls_lines_fill (entries : list (station * mount)) :
  pls_lines (fill_candidate <$> entries) = pls_lines entries.
Proof.
  unfold pls_lines. rewrite length_fmap, imap_fmap. done.
Qed.

(** C8, as the code has it: a station key (description, url, genre, art)
    that is missing or [null] gives, in each encoder, the document that the
    empty string gives, so it is never a reason to raise (the XSPF encoder
    returns whenever the texts that are present are texts XML accepts; the
    other two always return); a track always has
    its [annotation] and [info] elements, while the genre [meta] and the
    [image] elements are written only for a value that is present and not
    empty, and are left out otherwise; the [#EXTINF] line of a mount without
    a [bitrate] key is the station name alone. *)
Theorem missing_optional_fields_read_as_empty :
  ∀ (now : string) (station_data : list station) (h : health_map),
    create_xspf_playlist now (fill_station <$> station_data) h
      = create_xspf_playlist now station_data h
    ∧ create_m3u_playlist (fill_station <$> station_data) h
      = create_m3u_playlist station_data h
    ∧ create_pls_playlist (fill_station <$> station_data) h
      = create_pls_playlist station_data h
    ∧ (∀ st mt,
         tag_of <$> children_of (xspf_track st mt) =
           ["location"; "title"; "creator"; "annotation"; "info"] ++
           (if present_and_truthy (s_genre st) then ["meta"] else []) ++
           (if present_and_truthy (s_art st) then ["image"] else []))
    ∧ (∀ f : field string, present_and_truthy f = true ↔ ∃ s, f = Value s ∧ s ≠ "")
    ∧ (∀ st url fmt, extinf_line (st, Mount url fmt Absent) = "#EXTINF:-1," +:+ s_name st)
    ∧ (field_ok Absent = true ∧ field_ok Null = true)
    ∧ (xml_chars_ok now = true →
       Forall (λ c, candidate_ok c = true) (emitted station_data h) →
       ∃ doc, create_xspf_playlist now station_data h = Return doc).
Proof.
  intros now station_data h. split_and!.
  - unfold create_xspf_playlist.
    rewrite !xspf_playlist_emitted, emitted_fill. unfold xspf_tree.
    rewrite !reparse_unfold. cbn [reparse_children]. fold reparse_children.
    rewrite !reparse_unfold. cbn [reparse_children].
    by rewrite reparse_tracks_fill.
  - by rewrite !create_m3u_playlist_emitted, emitted_fill, m3u_lines_fill.
  - by rewrite !create_pls_playlist_emitted, emitted_fill, pls_lines_fill.
  - intros st mt. unfold xspf_track. simpl.
    by destruct (present_and_truthy (s_genre st)), (present_and_truthy (s_art st)).
  - intros [| |s]; simpl.
    + split; [done|]. by intros (? & [=] & _).
    + split; [done|]. by intros (? & [=] & _).
    + rewrite negb_true_iff, bool_decide_eq_false. split.
      * intros Hs. by exists s.
      * by intros (? & [= <-] & Hs).
  - intros st url fmt. unfold extinf_line. simpl. by rewrite append_nil_r.
  - done.
  - done.
  - apply create_xspf_playlist_returns.
Qed.

Lemma missing_optional_fields_read_as_empty_witness :
  ∃ doc, create_xspf_playlist "2024-01-01T00:00:00+00:00" [plain_station] all_healthy
         = Return doc.
Proof.
  destruct (missing_optional_fields_read_as_empty "2024-01-01T00:00:00+00:00"
              [plain_station] all_healthy) as (_ & _ & _ & _ & _ & _ & _ & Hreturns).
  apply Hreturns; [reflexivity|].
  repeat (apply Forall_cons_2 || apply Forall_nil_2); reflexivity.
Defined.

(** C8, counterexample: the track of a healthy station without genre and
    art has neither a [meta] nor an [image] element. *)
Lemma xspf_track_without_genre_and_art :
  tag_of <$> children_of (xspf_track plain_station (Mount "http://a/1" "mp3" Absent))
    = ["location"; "title"; "creator"; "annotation"; "info"]
  ∧ create_xspf_playlist "2024-01-01T00:00:00+00:00" [plain_station] all_healthy
    = Return (unlines
        [ "<?xml version=" +:+ dquote +:+ "1.0" +:+ dquote +:+ " ?>";
          "<playlist xmlns=" +:+ dquote +:+ "http://xspf.org/ns/0/" +:+ dquote +:+
            " version=" +:+ dquote +:+ "1" +:+ dquote +:+ ">";
          "  <title>The Indie Beat Radio Streams</title>";
          "  <date>2024-01-01T00:00:00+00:00</date>";
          "  <trackList>";
          "    <track>";
          "      <location>http://a/1</location>";
          "      <title>Alpha</title>";
          "      <creator>The Indie Beat Radio</creator>";
          "      <annotation/>";
          "      <info/>";
          "    </track>";
          "  </trackList>";
          "</playlist>" ])
  ∧ ¬ (∃ e, e ∈ children_of (xspf_track plain_station (Mount "http://a/1" "mp3" Absent))
            ∧ (tag_of e = "meta" ∨ tag_of e = "image")).
Proof.
  split_and!; [done|by vm_compute|].
  intros (e & He & Htag). simpl in He.
  repeat (apply elem_of_cons in He as [->|He]; [by destruct Htag|]).
  by apply elem_of_nil in He.
Qed.

(** ** Candidates without an entry in the health map *)

Lemma filter_none {A} (P : A → Prop) `{!∀ x, Decision (P x)} (l : list A) :
  (∀ x, x ∈ l → ¬ P x) → filter P l = [].
Proof.
  induction l as [|x l IH]; intros Hl; [done|].
  rewrite filter_cons, IH by (intros y Hy; apply Hl; by right).
  destruct (decide (P x)) as [HP|]; [|done].
  by destruct (Hl x (list_elem_of_here x l)).
Qed.

Lemma emitted_no_entries (station_data : list station) (h : health_map) :
  (∀ u, u ∈ stream_urls station_data → h !! u = None) →
  emitted station_data h = [].
Proof.
  intros Hnone. unfold emitted. apply filter_none. intros c Hc.
  rewrite health_status_missing; [done|].
  by apply Hnone, candidate_url_in_stream_urls.
Qed.

(** C10, as the code has it: a candidate whose URL has no entry in the
    health map is handled as one whose entry says unhealthy: the three
    documents are those of the map with such an entry added, the candidate
    is not among the entries written, and with no entry at all the documents
    are the empty playlists. The lookup never raises and the M3U and PLS
    encoders return for every pair of arguments; the XSPF encoder returns
    exactly when the clock text and the texts of the candidates that are
    written are texts XML accepts, whatever the candidates without an entry
    hold, and raises [ExpatError] otherwise. *)
Theorem missing_health_entry_reads_as_unhealthy :
  ∀ (now : string) (station_data : list station) (h : health_map)
    (u : string) (inf : info),
    (create_xspf_playlist now station_data (<[u := (false, inf)]> (delete u h))
       = create_xspf_playlist now station_data (delete u h)
     ∧ create_m3u_playlist station_data (<[u := (false, inf)]> (delete u h))
       = create_m3u_playlist station_data (delete u h)
     ∧ create_pls_playlist station_data (<[u := (false, inf)]> (delete u h))
       = create_pls_playlist station_data (delete u h))
    ∧ health_status (delete u h) u = false
    ∧ Forall (λ c, m_url c.2 ≠ u) (emitted station_data (delete u h))
    ∧ (∀ c, c ∈ candidates station_data → h !! m_url c.2 = None →
            c ∉ emitted station_data h)
    ∧ (create_xspf_playlist now station_data h
         = (reparsed ← reparse (xspf_tree now (emitted station_data h));
            Return (toprettyxml "  " reparsed))
       ∧ create_m3u_playlist station_data h = unlines (m3u_lines (emitted station_data h))
       ∧ create_pls_playlist station_data h = unlines (pls_lines (emitted station_data h)))
    ∧ (create_xspf_playlist now station_data ∅ = create_xspf_playlist now [] ∅
       ∧ create_m3u_playlist station_data ∅ = "#EXTM3U" +:+ nl
       ∧ create_pls_playlist station_data ∅ =
           "[playlist]" +:+ nl +:+ "NumberOfEntries=0" +:+ nl +:+ "Version=2" +:+ nl)
    ∧ ((∃ doc, create_xspf_playlist now station_data h = Return doc) ↔
       xml_chars_ok now = true
       ∧ Forall (λ c, candidate_ok c = true) (emitted station_data h))
    ∧ (∀ e, create_xspf_playlist now station_data h = Raise e → e = ExpatError).
Proof.
  intros now station_data h u inf.
  assert (Hu : health_status (delete u h) u = false).
  { apply health_status_missing, lookup_delete_eq. }
  assert (Hsame : emitted station_data (<[u := (false, inf)]> (delete u h))
                  = emitted station_data (delete u h)).
  { apply emitted_agree. intros v _.
    rewrite health_status_insert. by destruct (decide (u = v)) as [<-|]. }
  split; [exact (encoders_agree now station_data _ _ Hsame)|].
  split_and!.
  - done.
  - apply Forall_forall. intros c Hc Heq. unfold emitted in Hc.
    apply list_elem_of_filter in Hc as [Hc _]. rewrite Heq in Hc. congruence.
  - intros c _ Hnone Hc. unfold emitted in Hc.
    apply list_elem_of_filter in Hc as [Hc _].
    rewrite (health_status_missing _ _ Hnone) in Hc. done.
  - unfold create_xspf_playlist. by rewrite xspf_playlist_emitted.
  - apply create_m3u_playlist_emitted.
  - apply create_pls_playlist_emitted.
  - unfold create_xspf_playlist.
    by rewrite !xspf_playlist_emitted, (emitted_no_entries station_data ∅).
  - by rewrite create_m3u_playlist_emitted, (emitted_no_entries station_data ∅).
  - by rewrite create_pls_playlist_emitted, (emitted_no_entries station_data ∅).
  - destruct (create_xspf_playlist_inv now station_data h)
      as [(Hdoc & Hnow & Hall)|[Hraise Hnot]]; [done|].
    split; [|done]. intros [doc Hdoc]. congruence.
  - intros e He.
    destruct (create_xspf_playlist_inv now station_data h)
      as [([doc Hdoc] & _)|[Hraise _]]; congruence.
Qed.

Lemma missing_health_entry_reads_as_unhealthy_witness :
  ∃ doc, create_xspf_playlist "2024-01-01T00:00:00+00:00" [plain_station; bell_station]
           all_healthy = Return doc.
Proof.
  destruct (missing_health_entry_reads_as_unhealthy "2024-01-01T00:00:00+00:00"
              [plain_station; bell_station] all_healthy "http://b/1" (Text "Not checked"))
    as (_ & _ & _ & _ & _ & _ & Hreturns & _).
  apply Hreturns. split; [reflexivity|].
  repeat (apply Forall_cons_2 || apply Forall_nil_2); reflexivity.
Defined.

(** C10, counterexample: a station list and a health map that lacks the
    entry of one candidate, on which the XSPF encoder raises: the candidate
    without entry is left out, and the name of the candidate that is written
    holds a character XML refuses. The other two encoders return. *)
Lemma xspf_raises_while_entry_is_missing :
  bell_healthy !! "http://a/1" = None
  ∧ emitted [plain_station; bell_station] bell_healthy
      = [(bell_station, Mount "http://b/1" "mp3" Absent)]
  ∧ create_xspf_playlist "2024-01-01T00:00:00+00:00" [plain_station; bell_station]
      bell_healthy = Raise ExpatError
  ∧ create_m3u_playlist [plain_station; bell_station] bell_healthy
      = "#EXTM3U" +:+ nl +:+ "#EXTINF:-1," +:+ String "007"%char "Bell" +:+ nl +:+
        "http://b/1" +:+ nl
  ∧ create_pls_playlist [plain_station; bell_station] bell_healthy
      = "[playlist]" +:+ nl +:+ "File1=http://b/1" +:+ nl +:+
        "Title1=" +:+ String "007"%char "Bell" +:+ nl +:+ "Length1=-1" +:+ nl +:+
        "NumberOfEntries=1" +:+ nl +:+ "Version=2" +:+ nl.
Proof. split_and!; by vm_compute. Qed.

(** * Further properties of the code *)

(** ** The map [check_streams] returns *)

Lemma check_streams_app_eq (self : StreamHealthCheck) (net : network)
    (urls1 urls2 : list string) (clock : nat) :
  check_streams self net (urls1 ++ urls2) clock =
    ((check_streams self net urls2 (check_streams self net urls1 clock).2).1
       ∪ (check_streams self net urls1 clock).1,
     (check_streams self net urls2 (check_streams self net urls1 clock).2).2).
Proof.
  unfold check_streams at 1. rewrite foldl_app.
  fold (check_streams self net urls1 clock).
  destruct (check_streams self net urls1 clock) as [r1 c1]. by rewrite check_streams_from.
Qed.

Lemma check_streams_dom (self : StreamHealthCheck) (net : network)
    (urls : list string) (clock : nat) :
  dom (check_streams self net urls clock).1 = list_to_set urls.
Proof.
  revert clock. induction urls as [|url urls IH]; intros clock.
  - unfold check_streams. simpl. by rewrite dom_empty_L.
  - rewrite check_streams_cons. simpl.
    rewrite dom_union_L, dom_singleton_L, IH.
    apply (comm_L (∪)).
Qed.

Lemma check_streams_lookup_not_in (self : StreamHealthCheck) (net : network)
    (urls : list string) (clock : nat) (u : string) :
  u ∉ urls → (check_streams self net urls clock).1 !! u = None.
Proof.
  intros Hu. apply not_elem_of_dom.
  by rewrite check_streams_dom, elem_of_list_to_set.
Qed.

Lemma check_streams_lookup_in (self : StreamHealthCheck) (net : network)
    (urls : list string) (clock : nat) (u : string) :
  u ∈ urls → is_Some ((check_streams self net urls clock).1 !! u).
Proof.
  intros Hu. apply elem_of_dom.
  by rewrite check_streams_dom, elem_of_list_to_set.
Qed.

(** X1: running [check_streams] on a list followed by another is running it
    on the first, then on the second from the time the first run ends; the
    results of the second run take precedence over those of the first. *)
Theorem check_streams_app :
  ∀ (self : StreamHealthCheck) (net : network) (urls1 urls2 : list string) (clock : nat),
    let first := check_streams self net urls1 clock in
    let second := check_streams self net urls2 first.2 in
    check_streams self net (urls1 ++ urls2) clock = (second.1 ∪ first.1, second.2)
    ∧ (∀ u, u ∈ urls2 → (check_streams self net (urls1 ++ urls2) clock).1 !! u = second.1 !! u).
Proof.
  intros self net urls1 urls2 clock first second.
  split; [apply check_streams_app_eq|].
  intros u Hu. rewrite check_streams_app_eq. simpl.
  destruct (check_streams_lookup_in self net urls2 first.2 u Hu) as [r Hr].
  unfold second. rewrite Hr. apply lookup_union_Some_l. exact Hr.
Qed.

(** X2: the map [check_streams] returns has an entry for every URL of the
    list and for nothing else, so as many entries as there are distinct
    URLs; a healthy entry carries a status code and an unhealthy entry a
    message. *)
Theorem check_streams_entries :
  ∀ (self : StreamHealthCheck) (net : network) (urls : list string) (clock : nat),
    let results := (check_streams self net urls clock).1 in
    dom results = list_to_set urls
    ∧ size results = length (remove_dups urls)
    ∧ (∀ u ok inf, results !! u = Some (ok, inf) →
         (ok = true ∧ ∃ status, inf = Status status)
         ∨ (ok = false ∧ ∃ message, inf = Text message)).
Proof.
  intros self net urls clock results. split_and!.
  - apply check_streams_dom.
  - rewrite <-size_dom. unfold results. rewrite check_streams_dom.
    rewrite <-(size_list_to_set (C:=gset string) (remove_dups urls))
      by apply NoDup_remove_dups.
    f_equal. apply set_eq. intros u.
    rewrite !elem_of_list_to_set. by rewrite elem_of_remove_dups.
  - unfold results. clear results. revert clock.
    induction urls as [|url urls IH]; intros clock u ok inf.
    + unfold check_streams. simpl. by rewrite lookup_empty.
    + rewrite check_streams_cons. simpl. intros [Hu|[_ Hu]]%lookup_union_Some_raw.
      * by eapply IH.
      * apply lookup_singleton_Some in Hu as [_ Hu]. unfold probe_result in Hu.
        destruct (x_get _) as [e|status]; [|destruct (x_read _) as [e|]];
          injection Hu as <- <-; eauto.
Qed.

(** X3: the entry of a URL is the outcome of its last probe in the list:
    a URL listed twice is probed twice and the later outcome replaces the
    earlier one. *)
Theorem check_streams_last_probe_wins :
  ∀ (self : StreamHealthCheck) (net : network) (before after : list string)
    (u : string) (clock : nat),
    u ∉ after →
    (check_streams self net (before ++ u :: after) clock).1 !! u =
      Some (probe_result
              (net (timeout self) (check_streams self net before clock).2 u)).
Proof.
  intros self net before after u clock Hu.
  rewrite check_streams_app_eq. simpl.
  destruct (check_streams_lookup_in self net (u :: after)
              (check_streams self net before clock).2 u) as [r Hr]; [by left|].
  rewrite (lookup_union_Some_l _ _ _ _ Hr), <-Hr.
  rewrite check_streams_cons. simpl.
  rewrite lookup_union_r by (by apply check_streams_lookup_not_in).
  by rewrite lookup_singleton_eq.
Qed.

Lemma check_streams_last_probe_wins_witness :
  (check_streams StreamHealthCheck_default
     fading_network
     (["http://a/1"; "http://a/2"] ++ "http://a/1" :: ["http://a/3"]) 0).1 !! "http://a/1"
  = Some (probe_result
            (fading_network
               (timeout StreamHealthCheck_default)
               (check_streams StreamHealthCheck_default
                  fading_network
                  ["http://a/1"; "http://a/2"] 0).2 "http://a/1")).
Proof.
  apply (check_streams_last_probe_wins StreamHealthCheck_default
           fading_network
           ["http://a/1"; "http://a/2"] ["http://a/3"] "http://a/1" 0).
  intros Hin. apply list_elem_of_singleton in Hin. discriminate Hin.
Defined.

Lemma check_streams_steady_lookup (self : StreamHealthCheck) (net : network)
    (urls : list string) (clock : nat) (u : string) :
  (∀ t t' v, net (timeout self) t v = net (timeout self) t' v) →
  (check_streams self net urls clock).1 !! u =
    if decide (u ∈ urls) then Some (probe_result (net (timeout self) 0 u)) else None.
Proof.
  intros Hsteady. destruct (decide (u ∈ urls)) as [Hu|Hu];
    [|by apply check_streams_lookup_not_in].
  revert clock. induction urls as [|url urls IH]; intros clock;
    [by apply elem_of_nil in Hu|].
  rewrite check_streams_cons. simpl.
  destruct (decide (u ∈ urls)) as [Hin|Hin].
  - by rewrite (lookup_union_Some_l _ _ _ _ (IH Hin _)).
  - apply elem_of_cons in Hu as [->|Hu]; [|done].
    rewrite lookup_union_r by (by apply check_streams_lookup_not_in).
    by rewrite lookup_singleton_eq, (Hsteady clock 0).
Qed.

(** X4: on a network whose answers do not change with time, the map
    [check_streams] returns depends on the set of URLs alone: neither the
    order of the list, nor a URL listed more than once, nor the time of the
    run changes it. *)
Theorem check_streams_steady_network :
  ∀ (self : StreamHealthCheck) (net : network) (urls urls' : list string)
    (clock clock' : nat),
    (∀ t t' v, net (timeout self) t v = net (timeout self) t' v) →
    (∀ u, u ∈ urls ↔ u ∈ urls') →
    (check_streams self net urls clock).1 = (check_streams self net urls' clock').1.
Proof.
  intros self net urls urls' clock clock' Hsteady Hsame. apply map_eq. intros u.
  rewrite !check_streams_steady_lookup by done.
  destruct (decide (u ∈ urls)) as [Hu|Hu], (decide (u ∈ urls')) as [Hu'|Hu'];
    try done; by destruct (Hsame u); tauto.
Qed.

Lemma check_streams_steady_network_witness :
  (check_streams StreamHealthCheck_default not_found_network
     ["http://a/1"; "http://a/2"; "http://a/1"] 0).1
  = (check_streams StreamHealthCheck_default not_found_network
       ["http://a/2"; "http://a/1"] 7).1.
Proof.
  apply (check_streams_steady_network StreamHealthCheck_default not_found_network
           ["http://a/1"; "http://a/2"; "http://a/1"] ["http://a/2"; "http://a/1"] 0 7).
  - intros t t' v. reflexivity.
  - intros u. rewrite !elem_of_cons, !elem_of_nil. tauto.
Defined.

(** ** The stream URLs and the health map of [main] *)

Lemma stream_urls_candidates (station_data : list station) :
  stream_urls station_data = (λ c, m_url c.2) <$> candidates station_data.
Proof.
  unfold stream_urls, candidates.
  induction station_data as [|st sd IH]; [done|].
  rewrite !bind_cons, fmap_app, IH. f_equal.
  induction (s_mounts st) as [|mt mounts IHm]; [done|].
  rewrite !bind_cons, fmap_app, IHm. f_equal.
  by destruct (decide (m_format mt = "mp3")).
Qed.

Lemma elem_of_candidates (station_data : list station) (c : station * mount) :
  c ∈ candidates station_data ↔
  c.1 ∈ station_data ∧ c.2 ∈ s_mounts c.1 ∧ m_format c.2 = "mp3".
Proof.
  unfold candidates. rewrite list_elem_of_bind. split.
  - intros (st & Hc & Hst). apply list_elem_of_bind in Hc as (mt & Hc & Hmt).
    destruct (decide (m_format mt = "mp3")); [|by apply elem_of_nil in Hc].
    by apply list_elem_of_singleton in Hc as ->.
  - destruct c as [st mt]. simpl. intros (Hst & Hmt & Hfmt).
    exists st. split; [|done]. apply list_elem_of_bind. exists mt. split; [|done].
    rewrite decide_True by done. by apply list_elem_of_singleton.
Qed.

(** X5: the URLs [main] collects (and prints in list mode) are the URLs of
    the mp3 mounts, one per mount and in station order then mount order,
    whatever their health: a URL is collected exactly when some station has
    an mp3 mount with it, a URL carried by two mounts is collected twice,
    and no encoder writes more entries than there are collected URLs. *)
Theorem stream_urls_are_mp3_mounts :
  ∀ (station_data more : list station) (h : health_map),
    stream_urls station_data = (λ c, m_url c.2) <$> candidates station_data
    ∧ (∀ u, u ∈ stream_urls station_data ↔
            ∃ st mt, st ∈ station_data ∧ mt ∈ s_mounts st ∧
                     m_format mt = "mp3" ∧ m_url mt = u)
    ∧ stream_urls (station_data ++ more) = stream_urls station_data ++ stream_urls more
    ∧ length (emitted station_data h) ≤ length (stream_urls station_data).
Proof.
  intros station_data more h. split_and!.
  - apply stream_urls_candidates.
  - intros u. rewrite stream_urls_candidates, list_elem_of_fmap. split.
    + intros ([st mt] & -> & Hc). apply elem_of_candidates in Hc as (? & ? & ?).
      by exists st, mt.
    + intros (st & mt & Hst & Hmt & Hfmt & <-). exists (st, mt). split; [done|].
      by apply elem_of_candidates.
  - unfold stream_urls. by rewrite bind_app.
  - rewrite stream_urls_candidates, length_fmap. unfold emitted. apply length_filter.
Qed.

Lemma skipped_results_lookup (urls : list string) (u : string) :
  skipped_results urls !! u =
    if decide (u ∈ urls) then Some (true, Text "Health check skipped") else None.
Proof.
  unfold skipped_results.
  assert (Hgen : ∀ d : health_map,
            foldl (λ d url, <[url := (true, Text "Health check skipped")]> d) d urls !! u
            = if decide (u ∈ urls) then Some (true, Text "Health check skipped")
              else d !! u).
  { induction urls as [|url urls IH]; intros d; [done|].
    cbn [foldl]. rewrite IH.
    destruct (decide (u ∈ urls)) as [Hin|Hin].
    - rewrite decide_True; [done|by right].
    - destruct (decide (u = url)) as [->|Hne].
      + rewrite decide_True by (by left). by rewrite lookup_insert_eq.
      + rewrite decide_False by (rewrite elem_of_cons; tauto).
        by rewrite lookup_insert_ne. }
  rewrite Hgen. by destruct (decide (u ∈ urls)).
Qed.

(** X6: whether the health check runs or is skipped, the health map [main]
    hands to the encoders has an entry for each collected stream URL and for
    nothing else; when the check is skipped every entry is
    [(True, "Health check skipped")]. *)
Theorem main_health_results_keys :
  ∀ (no_health_check : bool) (net : network) (station_data : list station) (clock : nat),
    dom (main_health_results no_health_check net station_data clock)
      = list_to_set (stream_urls station_data)
    ∧ (∀ u, main_health_results true net station_data clock !! u =
            if decide (u ∈ stream_urls station_data)
            then Some (true, Text "Health check skipped") else None)
    ∧ (∀ c, c ∈ candidates station_data →
            is_Some (main_health_results no_health_check net station_data clock
                       !! m_url c.2)).
Proof.
  intros no_health_check net station_data clock.
  assert (Hdom : dom (main_health_results no_health_check net station_data clock)
                 = list_to_set (stream_urls station_data)).
  { unfold main_health_results. destruct no_health_check; cbn [negb].
    - apply set_eq. intros u. rewrite elem_of_dom, skipped_results_lookup.
      rewrite elem_of_list_to_set.
      destruct (decide (u ∈ stream_urls station_data)) as [Hu|Hu].
      + split; [done|]. by eexists.
      + split; [by intros [? [=]]|done].
    - apply check_streams_dom. }
  split_and!.
  - done.
  - intros u. apply skipped_results_lookup.
  - intros c Hc. apply elem_of_dom. rewrite Hdom, elem_of_list_to_set.
    by apply candidate_url_in_stream_urls.
Qed.

Lemma filter_all {A} (P : A → Prop) `{!∀ x, Decision (P x)} (l : list A) :
  (∀ x, x ∈ l → P x) → filter P l = l.
Proof.
  induction l as [|x l IH]; intros Hl; [done|].
  rewrite filter_cons, IH by (intros y Hy; apply Hl; by right).
  destruct (decide (P x)) as [|Hn]; [done|].
  by destruct (Hn (Hl x (list_elem_of_here x l))).
Qed.

(** X7: with [--no-health-check] every mp3 mount is written: the three
    documents are those of the full candidate list. *)
Theorem no_health_check_writes_every_candidate :
  ∀ (net : network) (station_data : list station) (now : string) (clock : nat),
    let h := main_health_results true net station_data clock in
    emitted station_data h = candidates station_data
    ∧ create_m3u_playlist station_data h = unlines (m3u_lines (candidates station_data))
    ∧ create_pls_playlist station_data h = unlines (pls_lines (candidates station_data))
    ∧ xspf_playlist now station_data h = xspf_tree now (candidates station_data).
Proof.
  intros net station_data now clock h.
  assert (Hall : emitted station_data h = candidates station_data).
  { unfold emitted. apply filter_all. intros c Hc.
    apply health_status_true. exists (Text "Health check skipped").
    unfold h, main_health_results. cbn [negb]. rewrite skipped_results_lookup.
    rewrite decide_True; [done|]. by apply candidate_url_in_stream_urls. }
  by rewrite create_m3u_playlist_emitted, create_pls_playlist_emitted,
       xspf_playlist_emitted, Hall.
Qed.

(** ** The encoders on the station list *)

Lemma candidates_app (sd1 sd2 : list station) :
  candidates (sd1 ++ sd2) = candidates sd1 ++ candidates sd2.
Proof. unfold candidates. by rewrite bind_app. Qed.

Lemma emitted_app (sd1 sd2 : list station) (h : health_map) :
  emitted (sd1 ++ sd2) h = emitted sd1 h ++ emitted sd2 h.
Proof. unfold emitted. by rewrite candidates_app, filter_app. Qed.

(** X8: the encoders work station by station: the entries of a list of
    stations followed by another are the entries of the first followed by
    those of the second. The M3U document of the whole is the document of
    the first part followed by the entry lines of the second, the XSPF
    tracks are those of the first part followed by those of the second, and
    the PLS numbering of the second part goes on where the first stopped. *)
Theorem encoders_on_appended_stations :
  ∀ (now : string) (sd1 sd2 : list station) (h : health_map),
    emitted (sd1 ++ sd2) h = emitted sd1 h ++ emitted sd2 h
    ∧ create_m3u_playlist (sd1 ++ sd2) h =
        create_m3u_playlist sd1 h +:+
        unlines (c ← emitted sd2 h; [extinf_line c; m_url c.2])
    ∧ tracks_of (xspf_playlist now (sd1 ++ sd2) h) =
        tracks_of (xspf_playlist now sd1 h) ++ tracks_of (xspf_playlist now sd2 h)
    ∧ create_pls_playlist (sd1 ++ sd2) h =
        unlines ("[playlist]" ::
                 concat (imap (λ i c, pls_entry (S i) c) (emitted sd1 h)) ++
                 concat (imap (λ i c, pls_entry (S (length (emitted sd1 h) + i)) c)
                              (emitted sd2 h)) ++
                 [ "NumberOfEntries=" +:+
                     pretty (length (emitted sd1 h) + length (emitted sd2 h));
                   "Version=2" ]).
Proof.
  intros now sd1 sd2 h. split_and!.
  - apply emitted_app.
  - rewrite !create_m3u_playlist_emitted, emitted_app. unfold m3u_lines.
    by rewrite bind_app, app_comm_cons, unlines_app.
  - rewrite !xspf_playlist_emitted, emitted_app. unfold xspf_tree, tracks_of. simpl.
    by rewrite !app_nil_r, fmap_app.
  - rewrite create_pls_playlist_emitted, emitted_app. unfold pls_lines.
    by rewrite imap_app, concat_app, length_app, <-app_assoc.
Qed.

Lemma candidates_mp3_only (station_data : list station) :
  candidates (mp3_only <$> station_data) =
  (λ c, (mp3_only c.1, c.2)) <$> candidates station_data.
Proof.
  induction station_data as [|st sd IH]; [done|].
  rewrite fmap_cons, candidates_cons, (candidates_cons st sd), fmap_app, IH. f_equal.
  unfold candidates. rewrite !bind_singleton. simpl.
  induction (s_mounts st) as [|mt mounts IHm]; [done|].
  rewrite filter_cons, bind_cons, fmap_app, <-IHm.
  destruct (decide (m_format mt = "mp3")) as [Hfmt|Hfmt]; [|done].
  rewrite bind_cons. by rewrite decide_True.
Qed.

Lemma emitted_mp3_only (station_data : list station) (h : health_map) :
  emitted (mp3_only <$> station_data) h =
  (λ c, (mp3_only c.1, c.2)) <$> emitted station_data h.
Proof.
  unfold emitted. rewrite candidates_mp3_only.
  induction (candidates station_data) as [|c l IH]; [done|].
  rewrite fmap_cons, !filter_cons, IH. simpl.
  by destruct (decide (health_status h (m_url c.2) = true)).
Qed.

Lemma m3u_lines_mp3_only (entries : list (station * mount)) :
  m3u_lines ((λ c, (mp3_only c.1, c.2)) <$> entries) = m3u_lines entries.
Proof.
  unfold m3u_lines. f_equal. induction entries as [|c l IH]; [done|].
  by rewrite fmap_cons, !bind_cons, IH.
Qed.

(** X9: mounts of another format than mp3 have no part in anything [main]
    produces: taking them away changes neither the collected URLs nor any
    of the three documents. *)
Theorem other_formats_are_ignored :
  ∀ (now : string) (station_data : list station) (h : health_map),
    stream_urls (mp3_only <$> station_data) = stream_urls station_data
    ∧ create_xspf_playlist now (mp3_only <$> station_data) h
        = create_xspf_playlist now station_data h
    ∧ create_m3u_playlist (mp3_only <$> station_data) h
        = create_m3u_playlist station_data h
    ∧ create_pls_playlist (mp3_only <$> station_data) h
        = create_pls_playlist station_data h.
Proof.
  intros now station_data h. split_and!.
  - rewrite !stream_urls_candidates, candidates_mp3_only.
    by rewrite <-list_fmap_compose.
  - unfold create_xspf_playlist.
    rewrite !xspf_playlist_emitted, emitted_mp3_only. unfold xspf_tree.
    by rewrite <-list_fmap_compose.
  - by rewrite !create_m3u_playlist_emitted, emitted_mp3_only, m3u_lines_mp3_only.
  - rewrite !create_pls_playlist_emitted, emitted_mp3_only. unfold pls_lines.
    by rewrite length_fmap, imap_fmap.
Qed.

(** X10: the XSPF tree has the children [title], [date] (the clock text)
    and [trackList], and its [trackList] holds one [track] per healthy
    candidate, in candidate order, whose [location] is the stream URL, whose
    [title] is the station name and whose [creator] is the fixed service
    name. *)
Theorem xspf_one_track_per_healthy_candidate :
  ∀ (now : string) (station_data : list station) (h : health_map),
    let playlist := xspf_playlist now station_data h in
    tag_of playlist = "playlist"
    ∧ tag_of <$> children_of playlist = ["title"; "date"; "trackList"]
    ∧ child_text "date" playlist = Some now
    ∧ length (tracks_of playlist) = length (emitted station_data h)
    ∧ child_text "location" <$> tracks_of playlist
        = (λ c, Some (m_url c.2)) <$> emitted station_data h
    ∧ child_text "title" <$> tracks_of playlist
        = (λ c, Some (s_name c.1)) <$> emitted station_data h
    ∧ child_text "creator" <$> tracks_of playlist
        = (λ _, Some "The Indie Beat Radio") <$> emitted station_data h.
Proof.
  intros now station_data h playlist. unfold playlist.
  rewrite xspf_playlist_emitted. unfold xspf_tree, tracks_of. simpl.
  rewrite !app_nil_r, length_fmap, <-!list_fmap_compose.
  split_and!; try done; by apply list_fmap_ext; intros i [st mt] _.
Qed.

(** ** The directory fetch *)

(** X12: [fetch_station_data] returns the station list exactly when the
    request gets a response, the status code is outside 400..599 and the
    body decodes; a status code from 400 to 599 raises an [HTTPError]
    whatever the body holds, and an exception of the request is passed
    on. *)
Theorem fetch_station_data_returns_iff :
  ∀ (api : directory) (station_data : list station),
    (fetch_station_data api = Return station_data ↔
       ∃ r, api = inr r ∧ ¬ (400 ≤ status_code r < 600)%Z ∧ json r = Return station_data)
    ∧ (∀ r, api = inr r → (400 ≤ status_code r < 600)%Z →
            ∃ e, fetch_station_data api = Raise e ∧ exn_class e = "HTTPError")
    ∧ (∀ e, api = inl e → fetch_station_data api = Raise e).
Proof.
  intros api station_data. unfold fetch_station_data, raise_for_status. split_and!.
  - destruct api as [e|r]; simpl.
    + split; [done|]. by intros (? & [=] & _).
    + repeat case_bool_decide; simpl.
      * split; [done|]. intros (? & [= <-] & Hr & _). lia.
      * split; [done|]. intros (? & [= <-] & Hr & _). lia.
      * split; [intros Hj; exists r; split_and!; [done|lia|done]|].
        by intros (? & [= <-] & _ & ?).
  - intros r -> Hr. simpl. repeat case_bool_decide; simpl; [by eexists..|lia].
  - by intros e ->.
Qed.

(** ** Saving and [main] *)


Lemma save_format_raised (console : Console) (verbose enabled : bool) (filename : string)
    (content : outcome string) (e : exn) (fs : filesystem) :
  save_format console verbose enabled filename content (Raise e, fs) = (Raise e, fs).
Proof. done. Qed.

Lemma save_format_ok (console : Console) (verbose enabled : bool)
    (filename content : string) (fs : filesystem) :
  open_error fs filename = None →
  (verbose = true → console (saved_message filename) = None) →
  save_format console verbose enabled filename (Return content) (Return tt, fs)
    = (Return tt, saved enabled filename content fs).
Proof.
  intros Hopen Hshown. unfold save_format, save_playlist, saved, console_print.
  destruct enabled; [|done]. rewrite Hopen.
  destruct verbose; [|done]. unfold saved_message in Hshown. by rewrite Hshown.
Qed.

Lemma open_error_saved (enabled : bool) (filename content : string) (fs : filesystem) :
  open_error (saved enabled filename content fs) = open_error fs.
Proof. by destruct enabled. Qed.

Lemma exit_status_except (console : Console) (verbose : bool) (e : exn) :
  exit_status (main_except console verbose e) = 1%Z.
Proof.
  unfold main_except, console_print.
  destruct (isinstance_RequestException e).
  - by destruct (console (Str _)).
  - destruct (console (Str _)); [done|]. simpl.
    destruct verbose; [|done]. by destruct (console (Traceback e)).
Qed.

Lemma main_raised (args : Args) (console : Console) (api : directory) (net : network)
    (now : string) (clock : nat) (fs fs' : filesystem) (e : exn) (out : list string) :
  main_try args console api net now clock fs = (Raise e, fs', out) →
  main args console api net now clock fs
    = {| exit_code := 1; fs_after := fs'; printed := out |}.
Proof. intros Htry. unfold main. rewrite Htry. simpl. by rewrite exit_status_except. Qed.

Lemma main_try_unfold (args : Args) (console : Console) (api : directory) (net : network)
    (now : string) (clock : nat) (fs : filesystem) (station_data : list station) :
  args_list_streams args = false →
  fetch_station_data api = Return station_data →
  let h := main_health_results (args_no_health_check args) net station_data clock in
  let shown :=
    if negb (args_no_health_check args)
    then show_health_check console (args_verbose args) (stream_urls station_data) h
    else Return tt in
  let st :=
    save_format console (args_verbose args) (writes PLS args) (args_output args +:+ ".pls")
      (Return (create_pls_playlist station_data h))
      (save_format console (args_verbose args) (writes M3U args)
         (args_output args +:+ ".m3u")
         (Return (create_m3u_playlist station_data h))
         (save_format console (args_verbose args) (writes XSPF args)
            (args_output args +:+ ".xspf")
            (create_xspf_playlist now station_data h) (shown, fs))) in
  main_try args console api net now clock fs =
    match st with
    | (Raise e, fs') => (Raise e, fs', [])
    | (Return _, fs') =>
        (_ ← print_summary console (args_verbose args) (written_files args) fs';
         Return 0%Z, fs', [])
    end.
Proof. intros Hlist Hfetch. unfold main_try. by rewrite Hfetch, Hlist. Qed.


(** X14: in list mode [main] prints the collected stream URLs, exits with 0
    and writes no file, whatever the format options, the health check
    option, the network and the files are; no probe has a part in it. *)
Theorem main_list_streams :
  ∀ (args : Args) (console : Console) (api : directory) (net : network) (now : string)
    (clock : nat) (fs : filesystem) (station_data : list station),
    args_list_streams args = true →
    fetch_station_data api = Return station_data →
    main args console api net now clock fs =
      {| exit_code := 0; fs_after := fs; printed := stream_urls station_data |}.
Proof.
  intros args console api net now clock fs station_data Hlist Hfetch.
  unfold main, main_try. by rewrite Hfetch, Hlist.
Qed.

Lemma main_list_streams_witness :
  main {| args_verbose := false; args_output := "the_indie_beat_radio";
          args_list_streams := true; args_xspf := false; args_m3u := true;
          args_pls := false; args_no_health_check := false |}
       tag_refusing_console scenario_directory timeout_network
       "2024-01-01T00:00:00+00:00" 0 old_files
  = {| exit_code := 0; fs_after := old_files;
       printed := stream_urls scenario_stations |}.
Proof.
  apply (main_list_streams _ tag_refusing_console scenario_directory timeout_network
           "2024-01-01T00:00:00+00:00" 0 old_files scenario_stations);
    reflexivity.
Defined.

Lemma output_files_distinct (output : string) :
  output +:+ ".xspf" ≠ output +:+ ".m3u"
  ∧ output +:+ ".xspf" ≠ output +:+ ".pls"
  ∧ output +:+ ".m3u" ≠ output +:+ ".pls".
Proof. split_and!; by intros [=]%(inj (String.app output)). Qed.

(** X15: take a run that is not in list mode, whose directory fetch
    succeeds, whose XSPF encoder returns, whose three files can be opened,
    and whose console shows what the health check prints (the table, and in
    verbose mode the progress display) and, in verbose mode, the message of
    each saved file. The run leaves, for each format it writes (the formats
    asked for, or all three when none is asked for), the document of that
    format's encoder in [<output>.<format>], replacing what the file held;
    the file of a format it does not write is left as it was. It exits with
    0 exactly when the console also shows the summary; when the console
    refuses the summary the files are written all the same and the exit
    code is 1. *)
Theorem main_writes_the_documents :
  ∀ (args : Args) (console : Console) (api : directory) (net : network) (now : string)
    (clock : nat) (fs : filesystem) (station_data : list station) (doc : string),
    let h := main_health_results (args_no_health_check args) net station_data clock in
    let run := main args console api net now clock fs in
    args_list_streams args = false →
    fetch_station_data api = Return station_data →
    create_xspf_playlist now station_data h = Return doc →
    (∀ name, name ∈ output_files args → open_error fs name = None) →
    (args_no_health_check args = false →
     show_health_check console (args_verbose args) (stream_urls station_data) h
       = Return tt) →
    (args_verbose args = true →
     ∀ name, name ∈ output_files args → console (saved_message name) = None) →
    printed run = []
    ∧ files (fs_after run) !! (args_output args +:+ ".xspf")
        = (if writes XSPF args then Some doc
           else files fs !! (args_output args +:+ ".xspf"))
    ∧ files (fs_after run) !! (args_output args +:+ ".m3u")
        = (if writes M3U args then Some (create_m3u_playlist station_data h)
           else files fs !! (args_output args +:+ ".m3u"))
    ∧ files (fs_after run) !! (args_output args +:+ ".pls")
        = (if writes PLS args then Some (create_pls_playlist station_data h)
           else files fs !! (args_output args +:+ ".pls"))
    ∧ (exit_code run = 0%Z ↔
       print_summary console (args_verbose args) (written_files args) (fs_after run)
         = Return tt)
    ∧ (exit_code run = 0 ∨ exit_code run = 1)%Z.
Proof.
  intros args console api net now clock fs station_data doc h run
    Hlist Hfetch Hxspf Hopen Hcheck Hsaved.
  unfold run, main. cbn [printed fs_after exit_code].
  rewrite (main_try_unfold _ _ _ net now clock fs _ Hlist Hfetch).
  fold h. rewrite Hxspf.
  assert (Hshown : (if negb (args_no_health_check args)
                    then show_health_check console (args_verbose args)
                           (stream_urls station_data) h
                    else Return tt) = Return tt).
  { destruct (args_no_health_check args); [done|]. by apply Hcheck. }
  rewrite Hshown.
  destruct (output_files_distinct (args_output args)) as (Hxm & Hxp & Hmp).
  assert (Hin : ∀ name, name ∈ output_files args →
            open_error fs name = None
            ∧ (args_verbose args = true → console (saved_message name) = None)).
  { intros name Hname. split; [by apply Hopen|]. intros Hv. by apply Hsaved. }
  destruct (Hin (args_output args +:+ ".xspf")) as [Hox Hsx];
    [unfold output_files; rewrite !elem_of_cons; tauto|].
  destruct (Hin (args_output args +:+ ".m3u")) as [Hom Hsm];
    [unfold output_files; rewrite !elem_of_cons; tauto|].
  destruct (Hin (args_output args +:+ ".pls")) as [Hop Hsp];
    [unfold output_files; rewrite !elem_of_cons; tauto|].
  rewrite save_format_ok by done.
  rewrite save_format_ok by (by rewrite ?open_error_saved).
  rewrite save_format_ok by (by rewrite ?open_error_saved).
  cbn [fst snd].
  split_and!.
  - done.
  - unfold saved. destruct (writes XSPF args), (writes M3U args), (writes PLS args);
      simpl; by rewrite ?lookup_insert_eq, ?lookup_insert_ne, ?lookup_insert_eq by done.
  - unfold saved. destruct (writes XSPF args), (writes M3U args), (writes PLS args);
      simpl; by rewrite ?lookup_insert_eq, ?lookup_insert_ne, ?lookup_insert_eq by done.
  - unfold saved. destruct (writes XSPF args), (writes M3U args), (writes PLS args);
      simpl; by rewrite ?lookup_insert_eq, ?lookup_insert_ne, ?lookup_insert_eq by done.
  - destruct (print_summary _ _ _ _) as [[]|e]; simpl; [done|].
    rewrite exit_status_except. split; [done|by intros [=]].
  - destruct (print_summary _ _ _ _) as [[]|e]; simpl; [by left|].
    right. apply exit_status_except.
Qed.

Lemma main_writes_the_documents_witness :
  printed (main default_args showing_console scenario_directory alpha_only_network
             "2024-01-01T00:00:00+00:00" 0 old_files) = []
  ∧ files (fs_after (main default_args showing_console scenario_directory
                       alpha_only_network "2024-01-01T00:00:00+00:00" 0 old_files))
      !! "the_indie_beat_radio.xspf" =
      match create_xspf_playlist "2024-01-01T00:00:00+00:00" scenario_stations
              (main_health_results false alpha_only_network scenario_stations 0) with
      | Return doc => Some doc
      | Raise _ => None
      end
  ∧ files (fs_after (main default_args showing_console scenario_directory
                       alpha_only_network "2024-01-01T00:00:00+00:00" 0 old_files))
      !! "the_indie_beat_radio.m3u" =
      Some (create_m3u_playlist scenario_stations
              (main_health_results false alpha_only_network scenario_stations 0))
  ∧ files (fs_after (main default_args showing_console scenario_directory
                       alpha_only_network "2024-01-01T00:00:00+00:00" 0 old_files))
      !! "the_indie_beat_radio.pls" =
      Some (create_pls_playlist scenario_stations
              (main_health_results false alpha_only_network scenario_stations 0))
  ∧ (exit_code (main default_args showing_console scenario_directory alpha_only_network
                  "2024-01-01T00:00:00+00:00" 0 old_files) = 0%Z ↔
     print_summary showing_console false (written_files default_args)
       (fs_after (main default_args showing_console scenario_directory
                    alpha_only_network "2024-01-01T00:00:00+00:00" 0 old_files))
     = Return tt)
  ∧ (exit_code (main default_args showing_console scenario_directory alpha_only_network
                  "2024-01-01T00:00:00+00:00" 0 old_files) = 0
     ∨ exit_code (main default_args showing_console scenario_directory alpha_only_network
                    "2024-01-01T00:00:00+00:00" 0 old_files) = 1)%Z.
Proof.
  destruct (create_xspf_playlist "2024-01-01T00:00:00+00:00" scenario_stations
              (main_health_results false alpha_only_network scenario_stations 0))
    as [doc|e] eqn:Hdoc; [|by vm_compute in Hdoc].
  apply (main_writes_the_documents default_args showing_console scenario_directory
           alpha_only_network "2024-01-01T00:00:00+00:00" 0 old_files
           scenario_stations doc).
  - reflexivity.
  - reflexivity.
  - exact Hdoc.
  - intros name _. reflexivity.
  - intros _. reflexivity.
  - intros _ name _. reflexivity.
Defined.

(** X16: when the XSPF document is to be written and its encoder raises,
    the run stops there: it exits with 1 and no file is written, the M3U
    and PLS files included, even when they were asked for. *)
Theorem main_xspf_failure_stops_the_run :
  ∀ (args : Args) (console : Console) (api : directory) (net : network) (now : string)
    (clock : nat) (fs : filesystem) (station_data : list station) (e : exn),
    args_list_streams args = false →
    fetch_station_data api = Return station_data →
    writes XSPF args = true →
    create_xspf_playlist now station_data
      (main_health_results (args_no_health_check args) net station_data clock) = Raise e →
    main args console api net now clock fs
      = {| exit_code := 1; fs_after := fs; printed := [] |}.
Proof.
  intros args console api net now clock fs station_data e Hlist Hfetch Hwrites Hxspf.
  assert (Htry : ∃ e', main_try args console api net now clock fs = (Raise e', fs, [])).
  { rewrite (main_try_unfold _ _ _ net now clock fs _ Hlist Hfetch).
    rewrite Hwrites, Hxspf.
    destruct (if negb (args_no_health_check args) then _ else _) as [[]|e'].
    - exists e. by unfold save_format.
    - exists e'. by rewrite !save_format_raised. }
  destruct Htry as [e' Htry]. by apply (main_raised _ _ _ _ _ _ _ _ e').
Qed.

Lemma main_xspf_failure_stops_the_run_witness :
  main default_args showing_console bell_directory steady_network
       "2024-01-01T00:00:00+00:00" 0 old_files
  = {| exit_code := 1; fs_after := old_files; printed := [] |}.
Proof.
  apply (main_xspf_failure_stops_the_run default_args showing_console bell_directory
           steady_network "2024-01-01T00:00:00+00:00" 0 old_files [bell_station]
           ExpatError);
    reflexivity.
Defined.

(** X17: take a run that writes the XSPF and the M3U format, whose console
    shows what the health check prints and, in verbose mode, the message of
    the saved XSPF file. When the M3U file cannot be opened, the run exits
    with 1 having written the XSPF file and nothing else: the PLS file,
    which comes after, is not attempted. *)
Theorem main_write_failure_keeps_earlier_files :
  ∀ (args : Args) (console : Console) (api : directory) (net : network) (now : string)
    (clock : nat) (fs : filesystem) (station_data : list station) (doc : string)
    (e : exn),
    let h := main_health_results (args_no_health_check args) net station_data clock in
    args_list_streams args = false →
    fetch_station_data api = Return station_data →
    writes XSPF args = true →
    writes M3U args = true →
    create_xspf_playlist now station_data h = Return doc →
    open_error fs (args_output args +:+ ".xspf") = None →
    open_error fs (args_output args +:+ ".m3u") = Some e →
    (args_no_health_check args = false →
     show_health_check console (args_verbose args) (stream_urls station_data) h
       = Return tt) →
    (args_verbose args = true →
     console (saved_message (args_output args +:+ ".xspf")) = None) →
    exit_code (main args console api net now clock fs) = 1%Z
    ∧ files (fs_after (main args console api net now clock fs))
        = <[args_output args +:+ ".xspf" := doc]> (files fs).
Proof.
  intros args console api net now clock fs station_data doc e h
    Hlist Hfetch Hx Hm Hdoc Hox Hom Hcheck Hsaved.
  assert (Htry : main_try args console api net now clock fs
            = (Raise e, saved true (args_output args +:+ ".xspf") doc fs, [])).
  { rewrite (main_try_unfold _ _ _ net now clock fs _ Hlist Hfetch).
    fold h. rewrite Hx, Hm, Hdoc.
    assert (Hshown : (if negb (args_no_health_check args)
                      then show_health_check console (args_verbose args)
                             (stream_urls station_data) h
                      else Return tt) = Return tt).
    { destruct (args_no_health_check args); [done|]. by apply Hcheck. }
    rewrite Hshown, save_format_ok by done.
    unfold save_format at 2. unfold save_playlist. simpl open_error. rewrite Hom.
    by rewrite save_format_raised. }
  by rewrite (main_raised _ _ _ _ _ _ _ _ _ _ Htry).
Qed.

Lemma main_write_failure_keeps_earlier_files_witness :
  exit_code (main default_args showing_console scenario_directory steady_network
               "2024-01-01T00:00:00+00:00" 0 m3u_locked) = 1%Z
  ∧ files (fs_after (main default_args showing_console scenario_directory steady_network
                       "2024-01-01T00:00:00+00:00" 0 m3u_locked))
      = <["the_indie_beat_radio.xspf" :=
            match create_xspf_playlist "2024-01-01T00:00:00+00:00" scenario_stations
                    (main_health_results false steady_network scenario_stations 0) with
            | Return doc => doc
            | Raise _ => ""
            end]> (files m3u_locked).
Proof.
  destruct (create_xspf_playlist "2024-01-01T00:00:00+00:00" scenario_stations
              (main_health_results false steady_network scenario_stations 0))
    as [doc|e] eqn:Hdoc; [|by vm_compute in Hdoc].
  apply (main_write_failure_keeps_earlier_files default_args showing_console
           scenario_directory steady_network "2024-01-01T00:00:00+00:00" 0 m3u_locked
           scenario_stations doc
           {| exn_class := "PermissionError";
              exn_str := "[Errno 13] Permission denied: 'the_indie_beat_radio.m3u'" |});
    try reflexivity.
  exact Hdoc.
Defined.

(** X20: when the health check runs and the console refuses what it prints
    (the table holds every stream URL in a cell, and rich refuses a cell
    with a closing tag that closes nothing), the run stops before any
    encoder is called: it exits with 1 and writes no file. *)
Theorem main_refused_table_stops_the_run :
  ∀ (args : Args) (console : Console) (api : directory) (net : network) (now : string)
    (clock : nat) (fs : filesystem) (station_data : list station) (e : exn),
    args_list_streams args = false →
    fetch_station_data api = Return station_data →
    args_no_health_check args = false →
    show_health_check console (args_verbose args) (stream_urls station_data)
      (main_health_results false net station_data clock) = Raise e →
    main args console api net now clock fs
      = {| exit_code := 1; fs_after := fs; printed := [] |}.
Proof.
  intros args console api net now clock fs station_data e Hlist Hfetch Hcheck Hshown.
  apply (main_raised _ _ _ _ _ _ _ _ e).
  rewrite (main_try_unfold _ _ _ net now clock fs _ Hlist Hfetch).
  rewrite Hcheck. cbn [negb]. rewrite Hshown.
  by rewrite !save_format_raised.
Qed.

Lemma main_refused_table_stops_the_run_witness :
  main default_args tag_refusing_console tagged_directory steady_network
       "2024-01-01T00:00:00+00:00" 0 old_files
  = {| exit_code := 1; fs_after := old_files; printed := [] |}.
Proof.
  apply (main_refused_table_stops_the_run default_args tag_refusing_console
           tagged_directory steady_network "2024-01-01T00:00:00+00:00" 0 old_files
           [tagged_station] MarkupError);
    reflexivity.
Defined.

(** ** From the probes to the documents *)

Lemma probe_result_healthy (x : exchange) :
  (probe_result x).1 = true ↔ ∃ status, x_get x = inr status ∧ x_read x = None.
Proof.
  unfold probe_result.
  destruct (x_get x) as [e|status]; [|destruct (x_read x) as [e|]]; simpl.
  - split; [done|by intros (? & [=] & _)].
  - split; [done|by intros (? & _ & [=])].
  - split; [by exists status|done].
Qed.

(** X18: on a network whose answers do not change with time, the health
    map that [main] builds with the health check makes the encoders keep
    the mp3 mounts whose stream answers and delivers its first chunk, in
    candidate order, and no other: the M3U and PLS documents are those of
    these mounts. *)
Theorem health_check_keeps_the_answering_streams :
  ∀ (net : network) (station_data : list station) (clock : nat),
    (∀ t t' v, net (timeout StreamHealthCheck_default) t v
               = net (timeout StreamHealthCheck_default) t' v) →
    let answering :=
      filter (λ c, (probe_result
                      (net (timeout StreamHealthCheck_default) 0 (m_url c.2))).1 = true)
             (candidates station_data) in
    emitted station_data (main_health_results false net station_data clock) = answering
    ∧ (∀ c, c ∈ emitted station_data (main_health_results false net station_data clock) ↔
            c ∈ candidates station_data ∧
            ∃ status,
              x_get (net (timeout StreamHealthCheck_default) 0 (m_url c.2)) = inr status
              ∧ x_read (net (timeout StreamHealthCheck_default) 0 (m_url c.2)) = None)
    ∧ create_m3u_playlist station_data (main_health_results false net station_data clock)
      = unlines (m3u_lines answering)
    ∧ create_pls_playlist station_data (main_health_results false net station_data clock)
      = unlines (pls_lines answering).
Proof.
  intros net station_data clock Hsteady answering.
  assert (Hem : emitted station_data (main_health_results false net station_data clock)
                = answering).
  { unfold emitted, answering. apply filter_agree. intros c Hc.
    unfold health_status, main_health_results. cbn [negb].
    rewrite check_streams_steady_lookup by done.
    by rewrite decide_True by (by apply candidate_url_in_stream_urls). }
  split_and!.
  - done.
  - intros c. rewrite Hem. unfold answering.
    rewrite list_elem_of_filter, probe_result_healthy. tauto.
  - by rewrite create_m3u_playlist_emitted, Hem.
  - by rewrite create_pls_playlist_emitted, Hem.
Qed.

Lemma health_check_keeps_the_answering_streams_witness :
  emitted scenario_stations
    (main_health_results false alpha_only_network scenario_stations 0)
  = [(Station "Alpha" Absent Absent Absent Absent [Mount "http://a/1" "mp3" (Value 128%Z)],
      Mount "http://a/1" "mp3" (Value 128%Z))]
  ∧ create_m3u_playlist scenario_stations
      (main_health_results false alpha_only_network scenario_stations 0)
    = "#EXTM3U" +:+ nl +:+ "#EXTINF:-1,Alpha - 128kbps" +:+ nl +:+ "http://a/1" +:+ nl.
Proof.
  destruct (health_check_keeps_the_answering_streams alpha_only_network
              scenario_stations 0) as (Hem & _ & Hm3u & _).
  - intros t t' v. reflexivity.
  - split; [exact Hem|exact Hm3u].
Defined.

(** ** Further facts on the documents *)

Lemma filter_sublist_impl {A} (P Q : A → Prop) `{!∀ x, Decision (P x)}
    `{!∀ x, Decision (Q x)} (l : list A) :
  (∀ x, P x → Q x) → filter P l `sublist_of` filter Q l.
Proof.
  intros HPQ. induction l as [|x l IH]; [done|].
  rewrite !filter_cons. destruct (decide (P x)) as [HP|HP].
  - rewrite decide_True by auto. by apply sublist_skip.
  - destruct (decide (Q x)); [by apply sublist_cons|done].
Qed.

(** X19: turning the entry of a URL to healthy never takes an entry out of
    a document: the entries written before are still written, in the same
    order, and the entries that come in are those of that URL. *)
Theorem healthier_map_keeps_entries :
  ∀ (station_data : list station) (h : health_map) (u : string) (inf : info),
    emitted station_data h `sublist_of` emitted station_data (<[u := (true, inf)]> h)
    ∧ (∀ c, c ∈ emitted station_data (<[u := (true, inf)]> h) ↔
            c ∈ emitted station_data h ∨ (c ∈ candidates station_data ∧ m_url c.2 = u)).
Proof.
  intros station_data h u inf. split.
  - unfold emitted. apply filter_sublist_impl. intros c Hc.
    rewrite health_status_insert. by destruct (decide (u = m_url c.2)).
  - intros c. unfold emitted. rewrite !list_elem_of_filter, health_status_insert.
    destruct (decide (u = m_url c.2)) as [->|Hne]; simpl; [tauto|].
    split; [tauto|]. intros [?|[_ Heq]]; [done|]. by destruct Hne.
Qed.
